(** * seisbench.util.trace_ops: a shallow embedding and its properties

    The module [seisbench/util/trace_ops.py] holds four helpers:
    [trace_has_spikes], [stream_to_array], [rotate_stream_to_ZNE] and
    [waveform_id_to_network_station_location].  Each is embedded below as
    a Rocq function that follows the Python text line by line.

    Conventions of the embedding:
    - Python [int] is [Z];
    - a Python [float] or numpy [float64] is the rational [Q] it stands for
      (no NaN, no infinities), compared with [==].  The float operations
      whose rounding can change an index, a column count or the outcome of
      a comparison (the products of lines 19, 40 and 55, the difference of
      two times, the value of [np.quantile]) are not computed exactly: they
      are the fields of a parameter [fl : FloatOps], of which the properties
      only assume what [SoundArith] says (rounding keeps signs, order and
      zero).  The average and the mean of lines 60-64 are exact;
    - a Python exception is a value of [exn]; a computation that may raise
      returns a [result];
    - the logger is the list of the warnings emitted so far, threaded
      through the assembler by the monad [M];
    - obspy's [Stream] is the list of its traces; a [Trace] is a record of
      the attributes the module reads;
    - a two-dimensional array is the list of its rows;
    - calls into obspy whose text is not part of the module
      ([Stream.select]'s pattern matching, [Stream.rotate]) are parameters. *)

From Stdlib Require Import ZArith QArith Qround Qminmax Qabs Lqa Lia.
From Stdlib Require Import List String Ascii Permutation Sorted.
From stdpp Require Import base list.

Open Scope string_scope.
Open Scope list_scope.

(** ** Python exceptions and fallible results *)

(** The exception classes the module can meet.  [Exception] is the plain
    class.  [KeyboardInterrupt] and [SystemExit] derive from
    [BaseException] only; all the others derive from [Exception]. *)
Inductive exn : Type :=
  | Exception
  | ValueError
  | NotImplementedError
  | AttributeError
  | ObsPyException
  | ZeroDivisionError
  | IndexError
  | KeyboardInterrupt
  | SystemExit.

Definition exn_eq_dec (a b : exn) : {a = b} + {a <> b}.
Proof. decide equality. Defined.

Definition derives_from_Exception (e : exn) : bool :=
  match e with
  | KeyboardInterrupt | SystemExit => false
  | _ => true
  end.

(** [isinstance(e, cls)] on the classes above. *)
Definition isinstance (e cls : exn) : bool :=
  if exn_eq_dec e cls then true
  else if exn_eq_dec cls Exception then derives_from_Exception e
  else false.

Inductive result (A : Type) : Type :=
  | Ok (a : A)
  | Raise (e : exn).
Arguments Ok {A} a.
Arguments Raise {A} e.

(** ** Float arithmetic *)

(** The float operations that are taken as they come out of the machine:
    [fl_mul x y] is the float product [x * y]; [fl_time_sub a b] is
    [a - b] on two [UTCDateTime], the seconds between them as a float;
    [fl_quantile row q] is the value [np.quantile] computes for one row that
    is not empty. *)
Record FloatOps : Type := mkFloatOps {
  fl_mul : Q -> Q -> Q;
  fl_time_sub : Q -> Q -> Q;
  fl_quantile : list Q -> Q -> Q
}.

(** What the properties assume of the float operations: a product of
    numbers that are not negative is not negative and grows with each
    factor; a product with zero is zero; the difference of two times is not
    negative when the first is not earlier, grows with the first and is zero
    for equal times; a quantile of numbers that are not negative is not
    negative.  Rounding to nearest keeps all of this. *)
Class SoundArith (fl : FloatOps) : Prop := {
  mul_nonneg : forall x y : Q, (0 <= x -> 0 <= y -> 0 <= fl_mul fl x y)%Q;
  mul_mono_l : forall x x' y : Q, (0 <= y -> x <= x' -> fl_mul fl x y <= fl_mul fl x' y)%Q;
  mul_mono_r : forall x y y' : Q, (0 <= x -> y <= y' -> fl_mul fl x y <= fl_mul fl x y')%Q;
  mul_zero_l : forall x y : Q, (x == 0 -> fl_mul fl x y == 0)%Q;
  time_sub_nonneg : forall a b : Q, (b <= a -> 0 <= fl_time_sub fl a b)%Q;
  time_sub_mono : forall a a' b : Q, (a <= a' -> fl_time_sub fl a b <= fl_time_sub fl a' b)%Q;
  time_sub_same : forall a b : Q, (a == b -> fl_time_sub fl a b == 0)%Q;
  quantile_nonneg : forall (row : list Q) (q : Q),
    Forall (fun x => 0 <= x)%Q row -> (0 <= fl_quantile fl row q)%Q
}.

(** ** Python builtins used by the module *)

Module Py.

(** [int(x)] on a float: truncation toward zero. *)
Definition int (x : Q) : Z := Z.quot (Qnum x) (Zpos (Qden x)).

(** [min(...)] over a generator: the first smallest element; raises
    [ValueError] on an empty one. *)
Definition min_of (xs : list Q) : result Q :=
  match xs with
  | [] => Raise ValueError
  | x :: r => Ok (fold_left (fun m y => if Qlt_le_dec y m then y else m) r x)
  end.

(** [max(...)] over a generator. *)
Definition max_of (xs : list Q) : result Q :=
  match xs with
  | [] => Raise ValueError
  | x :: r => Ok (fold_left (fun m y => if Qlt_le_dec m y then y else m) r x)
  end.

(** [min(a, b)] on two numbers: [b] when [b < a], else [a]. *)
Definition min2 (a b : Q) : Q := if Qlt_le_dec b a then b else a.

(** [x / n] with a float [x] and an int [n]. *)
Definition truediv (x : Q) (n : Z) : result Q :=
  if (n =? 0)%Z then Raise ZeroDivisionError else Ok (x / inject_Z n)%Q.

(** The bound [i] of a slice on a sequence of length [n], as Python
    adjusts it: a negative bound counts from the end, and the result is
    clipped to [0, n]. *)
Definition slice_bound (i n : Z) : Z :=
  if (i <? 0)%Z then Z.max 0 (i + n) else Z.min i n.

(** [xs[:stop]]. *)
Definition slice_to {A : Type} (xs : list A) (stop : Z) : list A :=
  take (Z.to_nat (slice_bound stop (Z.of_nat (List.length xs)))) xs.

(** [xs[0]]. *)
Definition first {A : Type} (xs : list A) : result A :=
  match xs with
  | [] => Raise IndexError
  | x :: _ => Ok x
  end.

(** [sorted(xs, key=key)]: a stable sort, here by insertion.  [insert_by]
    puts [x] in front of the first element whose key is not smaller, so an
    element stays in front of the later elements with the same key. *)
Fixpoint insert_by {A : Type} (key : A -> Z) (x : A) (l : list A) : list A :=
  match l with
  | [] => [x]
  | y :: r => if (key x <=? key y)%Z then x :: y :: r else y :: insert_by key x r
  end.

Definition sorted {A : Type} (key : A -> Z) (l : list A) : list A :=
  foldr (insert_by key) [] l.

(** [enumerate(xs)], counting from [i]. *)
Fixpoint enumerate_from {A : Type} (i : nat) (xs : list A) : list (nat * A) :=
  match xs with
  | [] => []
  | x :: r => (i, x) :: enumerate_from (S i) r
  end.

End Py.

(** ** numpy operations used by the module *)

Module Np.

Local Open Scope Q_scope.

(** [np.zeros((rows, cols))]; a negative dimension raises [ValueError]. *)
Definition zeros (rows : nat) (cols : Z) : result (list (list Q)) :=
  if (cols <? 0)%Z then Raise ValueError
  else Ok (replicate rows (replicate (Z.to_nat cols) 0)).

(** [row[a:b] = v] on a one-dimensional array: the slice bounds are
    adjusted as Python does, and [v] must have the length of the slice or
    length one (it is then broadcast); otherwise numpy raises [ValueError]. *)
Definition assign_slice (row : list Q) (a b : Z) (v : list Q) : result (list Q) :=
  let n := Z.of_nat (List.length row) in
  let lo := Z.to_nat (Py.slice_bound a n) in
  let k := Z.to_nat (Z.max 0 (Py.slice_bound b n - Py.slice_bound a n)) in
  if Nat.eqb (List.length v) k then Ok (take lo row ++ v ++ drop (lo + k) row)
  else match v with
       | [x] => Ok (take lo row ++ replicate k x ++ drop (lo + k) row)
       | _ => Raise ValueError
       end.

(** [data[i, a:b] = v] on a two-dimensional array. *)
Definition assign_row_slice (data : list (list Q)) (i : nat) (a b : Z) (v : list Q)
  : result (list (list Q)) :=
  match data !! i with
  | None => Raise IndexError
  | Some row =>
      match assign_slice row a b v with
      | Ok row' => Ok (<[i := row']> data)
      | Raise e => Raise e
      end
  end.

Definition sum (row : list Q) : Q := fold_right Qplus 0 row.

(** The mean of one row; numpy gives NaN on an empty row, which has no
    sample to subtract it from. *)
Definition mean (row : list Q) : Q := sum row / inject_Z (Z.of_nat (List.length row)).

(** [data -= np.mean(data, axis=1, keepdims=True)]. *)
Definition sub_row_mean (data : list (list Q)) : list (list Q) :=
  map (fun row => map (fun x => x - mean row) row) data.

(** [np.abs(data)]. *)
Definition abs (data : list (list Q)) : list (list Q) := map (map Qabs) data.

Fixpoint insert_sorted (x : Q) (l : list Q) : list Q :=
  match l with
  | [] => [x]
  | y :: r => if Qle_bool x y then x :: y :: r else y :: insert_sorted x r
  end.

Definition sort (l : list Q) : list Q := foldr insert_sorted [] l.

(** The exact value of [np.quantile(row, q)] with numpy's default method,
    linear interpolation between the two order statistics around the
    position [q * (n - 1)]. *)
Definition quantile1 (row : list Q) (q : Q) : Q :=
  let s := sort row in
  let n := Z.of_nat (List.length s) in
  let h := q * inject_Z (n - 1) in
  let j := Qfloor h in
  let lo := nth (Z.to_nat j) s 0 in
  let hi := nth (Z.to_nat (Z.min (j + 1) (n - 1))) s 0 in
  lo + (h - inject_Z j) * (hi - lo).

Definition no_samples (row : list Q) : bool :=
  match row with
  | [] => true
  | _ :: _ => false
  end.

(** [np.quantile(data, q, axis=1, keepdims=True)]: one value per row,
    [row_quantile row q] for each row.  numpy first checks [q] and raises
    [ValueError] when it is outside [0, 1]; on rows without samples it
    raises [IndexError]. *)
Definition quantile (row_quantile : list Q -> Q -> Q) (data : list (list Q)) (q : Q)
  : result (list Q) :=
  if negb (Qle_bool 0 q && Qle_bool q 1) then Raise ValueError
  else if existsb no_samples data then Raise IndexError
  else Ok (map (fun row => row_quantile row q) data).

(** [col * factor] on a column of one value per row. *)
Definition scale (mul : Q -> Q -> Q) (col : list Q) (factor : Q) : list Q :=
  map (fun x => mul x factor) col.

Definition gtb (x y : Q) : bool := negb (Qle_bool x y).

(** [data > col], the column broadcast along each row. *)
Definition greater (data : list (list Q)) (col : list Q) : list (list bool) :=
  zip_with (fun row bound => map (fun x => gtb x bound) row) data col.

(** [np.any(mask)]. *)
Definition any (mask : list (list bool)) : bool := existsb (existsb id) mask.

End Np.

(** Exact arithmetic: no rounding at all. *)
Definition exact_arith : FloatOps := mkFloatOps Qmult Qminus Np.quantile1.

(** ** The spike detector *)

(** [trace_has_spikes], lines 7-19. *)
Definition trace_has_spikes (fl : FloatOps) (data : list (list Q)) (factor quantile : Q)
  : result bool :=
  match Np.quantile (fl_quantile fl) (Np.abs data) quantile with
  | Ok q => Ok (Np.any (Np.greater data (Np.scale (fl_mul fl) q factor)))
  | Raise e => Raise e
  end.

(** The defaults of the keyword arguments. *)
Definition default_factor : Q := 25.
Definition default_quantile : Q := 975 # 1000.

(** An array with at least one row and at least one sample in each row. *)
Definition has_samples (data : list (list Q)) : Prop :=
  data <> [] /\ Forall (fun row => row <> []) data.

(** ** Waveform data *)

(** A trace, with the attributes the module reads: [trace.id],
    [trace.stats.channel], [trace.stats.starttime], [trace.stats.endtime],
    [trace.stats.sampling_rate] and [trace.data].  Times are seconds. *)
Record Trace : Type := mkTrace {
  trace_id : string;
  channel : string;
  starttime : Q;
  endtime : Q;
  sampling_rate : Q;
  data : list Q
}.

(** [trace.stats.npts]: obspy keeps it equal to [len(trace.data)]. *)
Definition npts (trace : Trace) : Z := Z.of_nat (List.length (data trace)).

Definition Stream : Type := list Trace.

(** A message handed to [seisbench.logger.warning]: the two values the
    format string of line 49 interpolates. *)
Record Warning : Type := mkWarning {
  warn_trace_id : string;
  warn_starttime : Q
}.

(** ** The assembler's monad: a result and the warnings logged so far *)

Definition M (A : Type) : Type := list Warning -> result A * list Warning.

Definition ret {A : Type} (a : A) : M A := fun log => (Ok a, log).

Definition raise {A : Type} (e : exn) : M A := fun log => (Raise e, log).

Definition lift {A : Type} (r : result A) : M A := fun log => (r, log).

Definition bind {A B : Type} (m : M A) (k : A -> M B) : M B :=
  fun log =>
    match m log with
    | (Ok a, log') => k a log'
    | (Raise e, log') => (Raise e, log')
    end.

Notation "'do' x <- m ; k" := (bind m (fun x => k))
  (at level 10, x name, m at level 100, k at level 200).

Definition logger_warning (w : Warning) : M unit :=
  fun log => (Ok tt, log ++ [w]).

(** A [for] loop over [xs] that updates the loop state [s]. *)
Fixpoint for_each {S X : Type} (body : S -> X -> M S) (xs : list X) (s : S) : M S :=
  match xs with
  | [] => ret s
  | x :: r => do s' <- body s x; for_each body r s'
  end.

(** [emits m ws]: every run of [m] that returns has appended exactly the
    warnings [ws] to the log. *)
Definition emits {A : Type} (m : M A) (ws : list Warning) : Prop :=
  forall log a log', m log = (Ok a, log') -> log' = log ++ ws.

(** [appends_only m]: whatever a run of [m] does, return or raise, the
    log it leaves is the log it found followed by new warnings. *)
Definition appends_only {A : Type} (m : M A) : Prop :=
  forall log r log', m log = (r, log') -> exists ws, log' = log ++ ws.

(** The order [sorted] establishes. *)
Definition key_le {A : Type} (key : A -> Z) (x y : A) : Prop := (key x <= key y)%Z.

(** ** The array assembler *)

Section Assembler.

Local Open Scope Q_scope.

(** [fnmatch name pattern]: the shell-style match obspy's [Stream.select]
    applies to the channel code of a trace. *)
Variable fnmatch : string -> string -> bool.

(** The float operations of lines 40 and 55. *)
Variable fl : FloatOps.

(** [stream.select(channel=f"??{c}")], line 45: the traces of the stream
    whose channel code matches, in the order of the stream. *)
Definition select (stream : Stream) (c : ascii) : Stream :=
  List.filter (fun trace => fnmatch (channel trace) (String "?" (String "?" (String c "")))) stream.

(** Line 55: the index of the trace's first sample in the output. *)
Definition start_sample_of (starttime0 sampling_rate0 : Q) (trace : Trace) : Z :=
  Py.int (fl_mul fl (fl_time_sub fl (starttime trace) starttime0) sampling_rate0).

(** Line 56: the number of samples of the trace that are copied. *)
Definition copy_length (samples start_sample : Z) (trace : Trace) : Z :=
  Z.min (Z.of_nat (List.length (data trace))) (samples - start_sample).

(** Lines 55-58, the body of the loop over the traces of one component.
    The loop state is the array and [c_completeness]. *)
Definition write_trace (starttime0 sampling_rate0 : Q) (samples : Z) (c_idx : nat)
    (st : list (list Q) * Q) (trace : Trace) : M (list (list Q) * Q) :=
  let start_sample := start_sample_of starttime0 sampling_rate0 trace in
  let l := copy_length samples start_sample trace in
  do data' <- lift (Np.assign_row_slice (fst st) c_idx start_sample (start_sample + l)
                      (Py.slice_to (data trace) l));
  ret (data', snd st + inject_Z l).

(** Lines 45-60, the body of the loop over the component order.  The loop
    state is the array and [completeness]. *)
Definition process_component (stream : Stream) (starttime0 sampling_rate0 : Q)
    (samples : Z) (st : list (list Q) * Q) (ic : nat * ascii) : M (list (list Q) * Q) :=
  let c_stream := select stream (snd ic) in
  do c_stream <-
    (if (1 <? Z.of_nat (List.length c_stream))%Z then
       match c_stream, stream with
       | first_match :: _, first_trace :: _ =>
           do _ <- logger_warning (mkWarning (trace_id first_match) (starttime first_trace));
           ret (Py.sorted npts c_stream)
       | _, _ => raise IndexError
       end
     else ret c_stream);
  do filled <- for_each (write_trace starttime0 sampling_rate0 samples (fst ic))
                 c_stream (fst st, 0);
  do fraction <- lift (Py.truediv (snd filled) samples);
  ret (fst filled, snd st + Py.min2 1 fraction).

(** [stream_to_array], lines 22-65.  [component_order] is the list of the
    characters of the Python string. *)
Definition stream_to_array (stream : Stream) (component_order : list ascii)
  : M (Q * list (list Q) * Q) :=
  do starttime0 <- lift (Py.min_of (map starttime stream));
  do endtime0 <- lift (Py.max_of (map endtime stream));
  do first_trace <- lift (Py.first stream);
  let sampling_rate0 := sampling_rate first_trace in
  let samples :=
    (Py.int (fl_mul fl (fl_time_sub fl endtime0 starttime0) sampling_rate0) + 1)%Z in
  do zeros <- lift (Np.zeros (List.length component_order) samples);
  do filled <- for_each (process_component stream starttime0 sampling_rate0 samples)
                 (Py.enumerate_from 0 component_order) (zeros, 0);
  let data' := Np.sub_row_mean (fst filled) in
  do completeness <- lift (Py.truediv (snd filled)
                             (Z.of_nat (List.length component_order)));
  ret (starttime0, data', completeness).

(** *** Quantities the statements below refer to

    They are the expressions of the function above, closed over the stream. *)

(** Line 36: the earliest start; line 37: the latest end.  On an empty
    stream Python raises; [0] stands for the value that is never computed. *)
Definition earliest_start (stream : Stream) : Q :=
  match Py.min_of (map starttime stream) with Ok t => t | Raise _ => 0 end.

Definition latest_end (stream : Stream) : Q :=
  match Py.max_of (map endtime stream) with Ok t => t | Raise _ => 0 end.

(** Line 38. *)
Definition stream_rate (stream : Stream) : Q :=
  match stream with first_trace :: _ => sampling_rate first_trace | [] => 0 end.

(** Line 40. *)
Definition sample_count (stream : Stream) : Z :=
  (Py.int (fl_mul fl (fl_time_sub fl (latest_end stream) (earliest_start stream))
             (stream_rate stream)) + 1)%Z.

Definition offset_of (stream : Stream) (trace : Trace) : Z :=
  start_sample_of (earliest_start stream) (stream_rate stream) trace.

Definition copied_of (stream : Stream) (trace : Trace) : Z :=
  copy_length (sample_count stream) (offset_of stream trace) trace.

(** Lines 46-51: the order in which the traces of a component are written. *)
Definition processing_order (stream : Stream) (c : ascii) : list Trace :=
  if (1 <? Z.of_nat (List.length (select stream c)))%Z
  then Py.sorted npts (select stream c)
  else select stream c.

(** Line 57 when the slice lies inside the row: [vals] replaces the
    samples of [row] from [off] on. *)
Definition overwrite (row : list Q) (off : nat) (vals : list Q) : list Q :=
  take off row ++ vals ++ drop (off + List.length vals) row.

Definition copied_samples (stream : Stream) (trace : Trace) : list Q :=
  take (Z.to_nat (copied_of stream trace)) (data trace).

(** The row of a component after the loop of lines 54-58, before the mean
    is removed. *)
Definition filled_row (stream : Stream) (c : ascii) : list Q :=
  fold_left
    (fun row trace =>
       overwrite row (Z.to_nat (offset_of stream trace)) (copied_samples stream trace))
    (processing_order stream c)
    (replicate (Z.to_nat (sample_count stream)) 0).

(** [c_completeness] after the loop of lines 54-58. *)
Definition copied_total (stream : Stream) (c : ascii) : Z :=
  fold_right Z.add 0%Z (map (copied_of stream) (processing_order stream c)).

(** Line 60: what one component adds to [completeness]. *)
Definition component_completeness (stream : Stream) (c : ascii) : Q :=
  Qmin 1 (inject_Z (copied_total stream c) / inject_Z (sample_count stream)).

(** Line 64: the value returned as completeness. *)
Definition overall_completeness (stream : Stream) (component_order : list ascii) : Q :=
  fold_right Qplus 0 (map (component_completeness stream) component_order)
  / inject_Z (Z.of_nat (List.length component_order)).

(** Lines 46-50: the warnings one component emits. *)
Definition component_warnings (stream : Stream) (c : ascii) : list Warning :=
  match select stream c, stream with
  | first_match :: _ :: _, first_trace :: _ =>
      [mkWarning (trace_id first_match) (starttime first_trace)]
  | _, _ => []
  end.

(** The warnings of one component as the specification words them: the
    identifier of the first matching trace with the earliest start of the
    collection. *)
Definition spec_component_warnings (stream : Stream) (c : ascii) : list Warning :=
  match select stream c with
  | first_match :: _ :: _ => [mkWarning (trace_id first_match) (earliest_start stream)]
  | _ => []
  end.

(** The input the module is written for: a stream that is not empty, whose
    traces end no earlier than they start, read at a sampling rate that is
    not negative. *)
Definition well_formed (stream : Stream) : Prop :=
  stream <> [] /\
  Forall (fun trace => starttime trace <= endtime trace) stream /\
  0 <= stream_rate stream.

(** The diagnostics as the specification words them: a run that returns
    has logged, for each component in turn, [spec_component_warnings]. *)
Definition spec_warnings_hold (stream : Stream) (component_order : list ascii) : Prop :=
  forall log r log',
    stream_to_array stream component_order log = (Ok r, log') ->
    log' = log ++ flat_map (spec_component_warnings stream) component_order.

End Assembler.

(** ** The best-effort rotator *)

Section Rotator.

Variable Inventory : Type.

(** [stream.rotate("->ZNE", inventory=inventory)], obspy's in-place
    rotation: the state it leaves the stream in, and the exception it
    raised, if any. *)
Variable rotate : Stream -> Inventory -> Stream * option exn.

(** [try: body except C1: pass ... except Cn: pass]: an exception raised by
    the body is discarded when it is an instance of one of the classes, and
    propagates otherwise; the state is left as the body left it. *)
Definition try_except_pass {S : Type} (body : S * option exn) (classes : list exn)
  : S * option exn :=
  match body with
  | (s, None) => (s, None)
  | (s, Some e) => if existsb (isinstance e) classes then (s, None) else (s, Some e)
  end.

(** [rotate_stream_to_ZNE], lines 68-89: the stream after the call and the
    exception that reaches the caller, if any. *)
Definition rotate_stream_to_ZNE (stream : Stream) (inventory : Inventory)
  : Stream * option exn :=
  try_except_pass (rotate stream inventory)
    [ValueError; NotImplementedError; AttributeError; ObsPyException; Exception].

(** What [rotate] makes of a stream when it runs to its end. *)
Variable rotated : Stream -> Inventory -> Stream.

(** The contract as the specification words it: no exception reaches the
    caller, and after a failure of the rotation the stream is either
    unmodified or fully rotated. *)
Definition best_effort_contract : Prop :=
  forall (stream : Stream) (inventory : Inventory),
    snd (rotate_stream_to_ZNE stream inventory) = None /\
    (snd (rotate stream inventory) <> None ->
     fst (rotate_stream_to_ZNE stream inventory) = stream \/
     fst (rotate_stream_to_ZNE stream inventory) = rotated stream inventory).

End Rotator.

(** ** Concrete inputs used by the examples *)

Module Examples.

Local Open Scope Q_scope.

(** [fnmatch] for patterns made of [?] and literal characters only, which
    is what ["??" + c] is for a component letter [c]. *)
Fixpoint glob (name pattern : string) : bool :=
  match pattern, name with
  | EmptyString, EmptyString => true
  | String p pattern', String n name' =>
      (Ascii.eqb p "?" || Ascii.eqb p n) && glob name' pattern'
  | _, _ => false
  end.

(** Rounding to binary64, to nearest with ties to even (overflow and
    subnormal numbers left aside): the significand [n / d], scaled by a
    power of two into [2^52, 2^53), is rounded to an integer. *)
Definition round_half_even (n d : Z) : Z :=
  let q := (n / d)%Z in
  match (2 * (n mod d) ?= d)%Z with
  | Lt => q
  | Gt => (q + 1)%Z
  | Eq => if Z.even q then q else (q + 1)%Z
  end.

Definition binary64 (x : Q) : Q :=
  let n := Z.abs (Qnum x) in
  let d := Zpos (Qden x) in
  if (n =? 0)%Z then 0
  else
    let scaled := fun e : Z =>
      if (e <? 0)%Z then ((n * 2 ^ (- e))%Z, d) else (n, (d * 2 ^ e)%Z) in
    let e0 := (Z.log2 n - Z.log2 d - 52)%Z in
    let e := if (fst (scaled e0) / snd (scaled e0) <? 2 ^ 52)%Z then (e0 - 1)%Z else e0 in
    let m := (Z.sgn (Qnum x) * round_half_even (fst (scaled e)) (snd (scaled e)))%Z in
    if (e <? 0)%Z then Qmake m (Z.to_pos (2 ^ (- e))) else inject_Z (m * 2 ^ e).

(** Float arithmetic with one rounding per operation. *)
Definition binary64_arith : FloatOps :=
  mkFloatOps (fun x y => binary64 (x * y)) (fun a b => binary64 (a - b))
    (fun row q => binary64 (Np.quantile1 row q)).

(** Thirty samples at 100 Hz from second 0: the last one is at 0.29 s. *)
Definition trace_100Hz : Trace :=
  mkTrace "XX.STA..BHZ" "BHZ" 0 (29 # 100) 100
    [0; 1; 2; 3; 4; 5; 6; 7; 8; 9; 10; 11; 12; 13; 14; 15; 16; 17; 18; 19;
     20; 21; 22; 23; 24; 25; 26; 27; 28; 29].

(** Four samples on Z from second 0, two on N from second 1, at 1 Hz. *)
Definition trace_Z : Trace := mkTrace "XX.STA..BHZ" "BHZ" 0 3 1 [1; 2; 3; 4].
Definition trace_N : Trace := mkTrace "XX.STA..BHN" "BHN" 1 2 1 [5; 7].
Definition stream_ZN : Stream := [trace_Z; trace_N].

(** Two traces on Z: a long one from second 1 and a short one from second 0;
    the long one comes first in the stream. *)
Definition trace_long : Trace := mkTrace "XX.STA..HHZ" "HHZ" 1 4 1 [10; 20; 30; 40].
Definition trace_short : Trace := mkTrace "XX.STA.00.BHZ" "BHZ" 0 2 1 [7; 8; 9].
Definition stream_dup : Stream := [trace_long; trace_short].

(** A stand-in for obspy's rotation, for the examples: the inventory lists
    the channels it has metadata for, and rotating a trace renames its
    component letter (1 to N, 2 to E). *)
Definition Inventory : Type := list string.

Definition rename_component (code : string) : string :=
  match code with
  | String a (String b (String c EmptyString)) =>
      String a (String b (String
        (if Ascii.eqb c "1" then "N"%char else if Ascii.eqb c "2" then "E"%char else c)
        EmptyString))
  | _ => code
  end.

Definition rotate_trace (trace : Trace) : Trace :=
  mkTrace (trace_id trace) (rename_component (channel trace)) (starttime trace)
    (endtime trace) (sampling_rate trace) (data trace).

(** The rotation of every trace: the fully rotated stream. *)
Definition rotate_all (stream : Stream) : Stream := map rotate_trace stream.

Definition trace_1 : Trace := mkTrace "XX.STA..BH1" "BH1" 0 1 1 [1; 2].
Definition trace_2 : Trace := mkTrace "XX.STA..BH2" "BH2" 0 1 1 [3; 4].
Definition stream_12 : Stream := [trace_1; trace_2].

(** A rotation that first looks every channel up and touches the stream
    only when all of them are listed; otherwise it raises the plain
    [Exception] obspy uses for missing channel metadata. *)
Definition rotate_atomic (stream : Stream) (inventory : Inventory)
  : Stream * option exn :=
  if forallb (fun trace => existsb (String.eqb (channel trace)) inventory) stream
  then (rotate_all stream, None)
  else (stream, Some Exception).

(** A rotation interrupted from the keyboard before it touched the stream. *)
Definition rotate_interrupted (stream : Stream) (inventory : Inventory)
  : Stream * option exn := (stream, Some KeyboardInterrupt).

End Examples.

(** ** Strings: [str.split], [str.join] and the trailing slice *)

Module PyStr.

(** [s.split(sep)] for a one-character separator: the pieces between the
    occurrences of [sep]; a string without [sep], the empty one included,
    gives one piece. *)
Fixpoint split (sep : ascii) (s : string) : list string :=
  match s with
  | EmptyString => [EmptyString]
  | String c r =>
      if Ascii.eqb c sep then EmptyString :: split sep r
      else match split sep r with
           | p :: ps => String c p :: ps
           | [] => [String c EmptyString]
           end
  end.

(** [sep.join(parts)]. *)
Fixpoint join (sep : ascii) (parts : list string) : string :=
  match parts with
  | [] => EmptyString
  | [p] => p
  | p :: ps => (p ++ String sep (join sep ps))%string
  end.

(** [parts[:-1]]: everything but the last element; empty on the empty list. *)
Fixpoint but_last {A : Type} (l : list A) : list A :=
  match l with
  | [] => []
  | [_] => []
  | x :: r => x :: but_last r
  end.

(** The character [c] occurs in [s]. *)
Fixpoint occurs (c : ascii) (s : string) : bool :=
  match s with
  | EmptyString => false
  | String d r => Ascii.eqb d c || occurs c r
  end.

End PyStr.

Definition dot : ascii := "."%char.

(** [waveform_id_to_network_station_location], lines 92-107. *)
Definition waveform_id_to_network_station_location (waveform_id : string) : string :=
  let parts := PyStr.split dot waveform_id in
  if negb (Nat.eqb (List.length parts) 4) then waveform_id
  else PyStr.join dot (PyStr.but_last parts).

(** * Properties *)

(** ** The identifier normalizer *)

Section Normalizer.

Import PyStr.

Lemma split_not_nil sep s : split sep s <> [].
Proof.
  destruct s as [|c r]; simpl; [discriminate|].
  destruct (Ascii.eqb c sep); [discriminate|].
  destruct (split sep r); discriminate.
Qed.

Lemma split_cons_sep sep r : split sep (String sep r) = EmptyString :: split sep r.
Proof. simpl. now rewrite Ascii.eqb_refl. Qed.

Lemma split_cons_other sep c r :
  c <> sep ->
  exists p ps, split sep r = p :: ps /\ split sep (String c r) = String c p :: ps.
Proof.
  intros Hc. simpl. apply Ascii.eqb_neq in Hc. rewrite Hc.
  destruct (split sep r) as [|p ps] eqn:E.
  - now apply split_not_nil in E.
  - now exists p, ps.
Qed.

(** Joining what [split] produced gives the string back. *)
Lemma join_split sep s : join sep (split sep s) = s.
Proof.
  induction s as [|c r IH]; [reflexivity|].
  destruct (ascii_dec c sep) as [->|Hc].
  - rewrite split_cons_sep.
    destruct (split sep r) as [|p ps] eqn:E; [now apply split_not_nil in E|].
    change (join sep (EmptyString :: p :: ps)) with (String sep (join sep (p :: ps))).
    now rewrite IH.
  - destruct (split_cons_other sep c r Hc) as (p & ps & E1 & E2).
    rewrite E2. rewrite E1 in IH.
    destruct ps as [|q qs]; simpl in *; now rewrite IH.
Qed.

(** No piece produced by [split] contains the separator. *)
Lemma split_pieces_clean sep s : Forall (fun p => occurs sep p = false) (split sep s).
Proof.
  induction s as [|c r IH]; [repeat constructor|].
  destruct (ascii_dec c sep) as [->|Hc].
  - rewrite split_cons_sep. now constructor.
  - destruct (split_cons_other sep c r Hc) as (p & ps & E1 & E2).
    rewrite E2. rewrite E1 in IH. inversion IH; subst.
    constructor; [|assumption].
    simpl. apply Ascii.eqb_neq in Hc. now rewrite Hc.
Qed.

Lemma split_clean sep p : occurs sep p = false -> split sep p = [p].
Proof.
  induction p as [|c r IH]; [reflexivity|].
  simpl. intros H. apply orb_false_iff in H as [H1 H2].
  rewrite H1, (IH H2). reflexivity.
Qed.

Lemma split_app_clean sep p s :
  occurs sep p = false ->
  split sep (p ++ String sep s)%string = p :: split sep s.
Proof.
  induction p as [|c r IH]; intros H.
  - simpl. now rewrite Ascii.eqb_refl.
  - simpl in H. apply orb_false_iff in H as [H1 H2].
    simpl. rewrite H1, (IH H2). reflexivity.
Qed.

(** Splitting the join of separator-free pieces gives the pieces back. *)
Lemma split_join sep ps :
  ps <> [] ->
  Forall (fun p => occurs sep p = false) ps ->
  split sep (join sep ps) = ps.
Proof.
  induction ps as [|p qs IH]; [congruence|].
  intros _ H. inversion H as [|? ? Hp Hqs]; subst.
  destruct qs as [|q qs].
  - simpl. now apply split_clean.
  - change (join sep (p :: q :: qs)) with (p ++ String sep (join sep (q :: qs)))%string.
    rewrite split_app_clean by assumption.
    rewrite IH; [reflexivity|discriminate|assumption].
Qed.

Lemma but_last_length {A} (l : list A) : List.length (but_last l) = Nat.pred (List.length l).
Proof.
  induction l as [|x [|y r] IH]; [reflexivity..|].
  change (but_last (x :: y :: r)) with (x :: but_last (y :: r)).
  simpl List.length in *. now rewrite IH.
Qed.

Lemma but_last_four {A} (l : list A) : List.length l = 4%nat -> but_last l = firstn 3 l.
Proof.
  destruct l as [|a [|b [|c [|d [|e r]]]]]; simpl; intros H; try discriminate.
  reflexivity.
Qed.

Lemma but_last_Forall {A} (P : A -> Prop) (l : list A) : Forall P l -> Forall P (but_last l).
Proof.
  induction l as [|x [|y r] IH]; intros H; [constructor..|].
  change (but_last (x :: y :: r)) with (x :: but_last (y :: r)).
  inversion H; subst. constructor; auto.
Qed.

(** The two cases of lines 104-107. *)
Lemma normalizer_cases (s : string) :
  (List.length (split dot s) = 4%nat /\
     waveform_id_to_network_station_location s = join dot (firstn 3 (split dot s)))
  \/ (List.length (split dot s) <> 4%nat /\
     waveform_id_to_network_station_location s = s).
Proof.
  unfold waveform_id_to_network_station_location.
  destruct (Nat.eqb (List.length (split dot s)) 4) eqn:E; simpl.
  - apply Nat.eqb_eq in E. left. split; [assumption|].
    now rewrite but_last_four.
  - apply Nat.eqb_neq in E. right. now split.
Qed.

(** C7. The normalizer is a total function on strings (it is a Rocq
    function, so it returns on every input and raises nothing): when
    splitting the input on '.' gives exactly four parts the result is the
    first three parts joined with '.'; on every other input the result is
    the input itself; in particular the empty string is returned unchanged. *)
Theorem normalizer_spec (s : string) :
  ((List.length (split dot s) = 4%nat /\
      waveform_id_to_network_station_location s = join dot (firstn 3 (split dot s)))
   \/ (List.length (split dot s) <> 4%nat /\
      waveform_id_to_network_station_location s = s))
  /\ waveform_id_to_network_station_location "" = "".
Proof. split; [apply normalizer_cases|reflexivity]. Qed.

Example normalizer_well_formed :
  waveform_id_to_network_station_location "NET.STA.LOC.CHA" = "NET.STA.LOC".
Proof. reflexivity. Qed.

Example normalizer_two_parts :
  waveform_id_to_network_station_location "NET.STA" = "NET.STA".
Proof. reflexivity. Qed.

Example normalizer_empty :
  waveform_id_to_network_station_location "" = "".
Proof. reflexivity. Qed.

Example normalizer_five_parts :
  waveform_id_to_network_station_location "A.B.C.D.E" = "A.B.C.D.E".
Proof. reflexivity. Qed.

(** The result on a four-part input splits into three parts. *)
Lemma normalizer_four_parts_result (s : string) :
  List.length (split dot s) = 4%nat ->
  split dot (waveform_id_to_network_station_location s) = firstn 3 (split dot s).
Proof.
  intros H. unfold waveform_id_to_network_station_location.
  rewrite H. simpl. rewrite split_join.
  - now apply but_last_four.
  - intros E. apply (f_equal (@List.length _)) in E.
    rewrite but_last_length, H in E. discriminate.
  - apply but_last_Forall, split_pieces_clean.
Qed.

(** C10. The normalizer is idempotent. *)
Theorem normalizer_idempotent (s : string) :
  waveform_id_to_network_station_location (waveform_id_to_network_station_location s)
  = waveform_id_to_network_station_location s.
Proof.
  destruct (normalizer_cases s) as [[H4 E]|[Hn E]].
  - pose proof (normalizer_four_parts_result s H4) as Hs.
    unfold waveform_id_to_network_station_location at 1.
    rewrite Hs.
    assert (L : List.length (firstn 3 (split dot s)) = 3%nat)
      by (rewrite length_firstn, H4; reflexivity).
    rewrite L. reflexivity.
  - now rewrite E.
Qed.

End Normalizer.

(** ** Exact arithmetic is sound *)

Section ExactArithmetic.

Local Open Scope Q_scope.

Lemma insert_sorted_Forall (P : Q -> Prop) (x : Q) (l : list Q) :
  P x -> Forall P l -> Forall P (Np.insert_sorted x l).
Proof.
  intros Hx. induction 1 as [|y r Hy Hr IH]; simpl.
  - repeat constructor. exact Hx.
  - destruct (Qle_bool x y); repeat constructor; assumption.
Qed.

Lemma sort_Forall (P : Q -> Prop) (l : list Q) : Forall P l -> Forall P (Np.sort l).
Proof.
  induction 1 as [|x r Hx Hr IH]; simpl; [constructor|].
  now apply insert_sorted_Forall.
Qed.

Lemma nth_nonneg (l : list Q) (i : nat) :
  Forall (fun x => 0 <= x) l -> 0 <= nth i l 0.
Proof.
  intros H. revert i. induction H as [|x r Hx Hr IH]; intros [|i]; simpl;
    try lra; auto.
Qed.

(** The interpolated quantile of values that are not negative is not
    negative. *)
Lemma quantile1_nonneg (row : list Q) (quantile : Q) :
  Forall (fun x => 0 <= x) row -> 0 <= Np.quantile1 row quantile.
Proof.
  intros H. unfold Np.quantile1.
  set (s := Np.sort row).
  set (h := quantile * inject_Z (Z.of_nat (List.length s) - 1)).
  assert (Hs : Forall (fun x => 0 <= x) s) by now apply sort_Forall.
  pose proof (nth_nonneg s (Z.to_nat (Qfloor h)) Hs) as Hlo.
  pose proof (nth_nonneg s
                (Z.to_nat (Z.min (Qfloor h + 1) (Z.of_nat (List.length s) - 1))) Hs) as Hhi.
  set (lo := nth _ s 0) in *. set (hi := nth _ s 0) in Hhi |- *.
  pose proof (Qfloor_le h) as H1. pose proof (Qlt_floor h) as H2.
  rewrite inject_Z_plus in H2. change (inject_Z 1) with 1 in H2.
  set (g := h - inject_Z (Qfloor h)).
  assert (Hg : 0 <= g <= 1) by (unfold g; lra).
  assert (E : lo + g * (hi - lo) == (1 - g) * lo + g * hi) by ring.
  rewrite E.
  assert (0 <= (1 - g) * lo) by (apply Qmult_le_0_compat; lra).
  assert (0 <= g * hi) by (apply Qmult_le_0_compat; lra).
  lra.
Qed.

#[global] Instance exact_arith_sound : SoundArith exact_arith.
Proof.
  constructor; unfold exact_arith; cbn [fl_mul fl_time_sub fl_quantile].
  - intros x y Hx Hy. now apply Qmult_le_0_compat.
  - intros x x' y Hy Hx. now apply Qmult_le_compat_r.
  - intros x y y' Hx Hy. rewrite !(Qmult_comm x). now apply Qmult_le_compat_r.
  - intros x y Hx. rewrite Hx. ring.
  - intros a b H. lra.
  - intros a a' b H. lra.
  - intros a b H. rewrite H. ring.
  - intros row q H. now apply quantile1_nonneg.
Qed.

End ExactArithmetic.

(** ** The spike detector *)

Section SpikeDetector.

Local Open Scope Q_scope.

Variable fl : FloatOps.

Lemma gtb_lt (x y : Q) : Np.gtb x y = true <-> y < x.
Proof.
  unfold Np.gtb. rewrite negb_true_iff.
  destruct (Qle_bool x y) eqn:E.
  - apply Qle_bool_iff in E. split; [discriminate|]. intros H. lra.
  - split; [intros _|reflexivity].
    apply Qnot_le_lt. intros H. apply Qle_bool_iff in H. congruence.
Qed.

(** The comparison of line 19, row by row: each row is compared with the
    quantile of its own absolute values, multiplied by the factor. *)
Lemma greater_rows (data : list (list Q)) (factor quantile : Q) :
  Np.greater data
    (Np.scale (fl_mul fl)
       (map (fun row => fl_quantile fl row quantile) (Np.abs data)) factor)
  = map (fun row =>
           map (fun x =>
                  Np.gtb x (fl_mul fl (fl_quantile fl (map Qabs row) quantile) factor))
             row)
      data.
Proof.
  unfold Np.greater, Np.scale, Np.abs.
  induction data as [|row rest IH]; [reflexivity|].
  simpl. f_equal. exact IH.
Qed.

Lemma any_rows (f : list Q -> Q -> bool) (data : list (list Q)) :
  Np.any (map (fun row => map (f row) row) data) = true
  <-> exists row x, In row data /\ In x row /\ f row x = true.
Proof.
  unfold Np.any. rewrite existsb_exists. split.
  - intros (mask & Hin & Hany). apply in_map_iff in Hin as (row & <- & Hrow).
    apply existsb_exists in Hany as (b & Hb & Hid).
    apply in_map_iff in Hb as (x & <- & Hx).
    exists row, x. auto.
  - intros (row & x & Hrow & Hx & Hf).
    exists (map (f row) row). split; [apply in_map_iff; eauto|].
    apply existsb_exists. exists (f row x). split; [apply in_map_iff; eauto|exact Hf].
Qed.

Lemma no_samples_abs (data : list (list Q)) :
  existsb Np.no_samples (Np.abs data) = existsb Np.no_samples data.
Proof.
  unfold Np.abs. induction data as [|row rest IH]; [reflexivity|].
  simpl. rewrite IH. now destruct row.
Qed.

Lemma no_samples_iff (data : list (list Q)) :
  existsb Np.no_samples data = false <-> Forall (fun row => row <> []) data.
Proof.
  induction data as [|row rest IH]; simpl.
  - split; [constructor|reflexivity].
  - rewrite orb_false_iff, IH. split.
    + intros [H1 H2]. constructor; [|exact H2]. now destruct row.
    + intros H. inversion H as [|? ? H1 H2]; subst. split; [|exact H2].
      now destruct row.
Qed.

Lemma in_range_iff (quantile : Q) :
  Qle_bool 0 quantile && Qle_bool quantile 1 = true <-> 0 <= quantile /\ quantile <= 1.
Proof. now rewrite andb_true_iff, !Qle_bool_iff. Qed.

(** The detector, with lines 18 and 19 fused row by row. *)
Lemma trace_has_spikes_rows (data : list (list Q)) (factor quantile : Q) :
  trace_has_spikes fl data factor quantile
  = if negb (Qle_bool 0 quantile && Qle_bool quantile 1) then Raise ValueError
    else if existsb Np.no_samples data then Raise IndexError
    else Ok (Np.any
               (map (fun row =>
                       map (fun x =>
                              Np.gtb x
                                (fl_mul fl (fl_quantile fl (map Qabs row) quantile) factor))
                         row)
                  data)).
Proof.
  unfold trace_has_spikes, Np.quantile. rewrite no_samples_abs.
  destruct (negb (Qle_bool 0 quantile && Qle_bool quantile 1)); [reflexivity|].
  destruct (existsb Np.no_samples data); [reflexivity|].
  now rewrite greater_rows.
Qed.

(** C6. On an array with samples and with a quantile in (0, 1) the
    detector returns, and it returns [True] exactly when some sample, taken
    with its sign, is strictly greater than the product, as the machine
    computes it, of the quantile of the absolute values of the sample's row
    and the factor; when no sample is, it returns [False]. *)
Theorem trace_has_spikes_iff (data : list (list Q)) (factor quantile : Q) :
  has_samples data ->
  0 < quantile -> quantile < 1 ->
  exists b : bool,
    trace_has_spikes fl data factor quantile = Ok b /\
    (b = true <->
       exists row x, In row data /\ In x row /\
         fl_mul fl (fl_quantile fl (map Qabs row) quantile) factor < x) /\
    ((forall row x, In row data -> In x row ->
         x <= fl_mul fl (fl_quantile fl (map Qabs row) quantile) factor) -> b = false).
Proof.
  intros [_ Hrows] Hlo Hhi.
  assert (Hrange : Qle_bool 0 quantile && Qle_bool quantile 1 = true)
    by (apply in_range_iff; lra).
  rewrite trace_has_spikes_rows, Hrange, (proj2 (no_samples_iff data) Hrows).
  cbn [negb].
  set (b := Np.any _).
  assert (Hb : b = true <->
    exists row x, In row data /\ In x row /\
      fl_mul fl (fl_quantile fl (map Qabs row) quantile) factor < x).
  { unfold b.
    rewrite (any_rows (fun row x =>
               Np.gtb x (fl_mul fl (fl_quantile fl (map Qabs row) quantile) factor))).
    split; intros (row & x & Hrow & Hx & H); exists row, x; repeat split; trivial;
      now apply gtb_lt. }
  exists b. split; [reflexivity|]. split; [exact Hb|].
  intros Hall. destruct b; [|reflexivity].
  destruct Hb as [Hb _]. destruct (Hb eq_refl) as (row & x & Hrow & Hx & H).
  specialize (Hall row x Hrow Hx). lra.
Qed.

End SpikeDetector.

Section SpikeDetectorExamples.

Local Open Scope Q_scope.

(** An outlier makes the detector answer [True]; without it the answer is
    [False]. *)
Example spikes_outlier :
  trace_has_spikes exact_arith [[1; -2; 3; 100]; [1; 1; 1; 1]] default_factor (1 # 2)
  = Ok true.
Proof. reflexivity. Qed.

Example spikes_none :
  trace_has_spikes exact_arith [[1; -2; 3; 4]; [1; 1; 1; 1]] default_factor
    default_quantile
  = Ok false.
Proof. reflexivity. Qed.

(** A large negative sample is not a spike: the comparison is on the raw
    value. *)
Example spikes_negative_outlier :
  trace_has_spikes exact_arith [[1; -2; 3; -100]] default_factor (1 # 2) = Ok false.
Proof. reflexivity. Qed.

Example spikes_bad_quantile :
  trace_has_spikes exact_arith [[1; 2]] default_factor (3 # 2) = Raise ValueError.
Proof. reflexivity. Qed.

(** Rows without samples: [np.quantile] raises. *)
Example spikes_no_samples :
  trace_has_spikes exact_arith [[]] default_factor default_quantile = Raise IndexError.
Proof. reflexivity. Qed.

Lemma has_samples_example : has_samples [[1; -2; 3; 100]; [1; 1; 1; 1]].
Proof. split; [discriminate|]. repeat constructor; discriminate. Defined.

Lemma trace_has_spikes_iff_witness :
  exists b : bool,
    trace_has_spikes exact_arith [[1; -2; 3; 100]; [1; 1; 1; 1]] 25 (1 # 2) = Ok b /\
    (b = true <->
       exists row x, In row [[1; -2; 3; 100]; [1; 1; 1; 1]] /\ In x row /\
         Np.quantile1 (map Qabs row) (1 # 2) * 25 < x) /\
    ((forall row x, In row [[1; -2; 3; 100]; [1; 1; 1; 1]] -> In x row ->
         x <= Np.quantile1 (map Qabs row) (1 # 2) * 25) -> b = false).
Proof.
  apply (trace_has_spikes_iff exact_arith [[1; -2; 3; 100]; [1; 1; 1; 1]] 25 (1 # 2));
    [exact has_samples_example|reflexivity|reflexivity].
Defined.

End SpikeDetectorExamples.

(** ** The array assembler: arithmetic of times and indices *)

Section Truncation.

Local Open Scope Q_scope.

Lemma Qnum_nonneg (x : Q) : 0 <= x -> (0 <= Qnum x)%Z.
Proof. unfold Qle. simpl. lia. Qed.

(** On a float that is not negative, [int] is the floor. *)
Lemma int_floor (x : Q) : 0 <= x -> Py.int x = Qfloor x.
Proof.
  intros H. apply Qnum_nonneg in H. destruct x as [n d]. simpl in *.
  unfold Py.int. simpl. apply Z.quot_div_nonneg; lia.
Qed.

Lemma int_nonneg (x : Q) : 0 <= x -> (0 <= Py.int x)%Z.
Proof.
  intros H. rewrite (int_floor x H).
  change 0%Z with (Qfloor 0). now apply Qfloor_resp_le.
Qed.

Lemma int_mono (x y : Q) : 0 <= x -> x <= y -> (Py.int x <= Py.int y)%Z.
Proof.
  intros Hx Hxy. rewrite (int_floor x), (int_floor y) by lra.
  now apply Qfloor_resp_le.
Qed.

Lemma int_integer (z : Z) : Py.int (inject_Z z) = z.
Proof. unfold Py.int. simpl. apply Z.quot_1_r. Qed.

End Truncation.

Section MinMax.

Local Open Scope Q_scope.

Lemma fold_min_spec (xs : list Q) (x : Q) :
  let m := fold_left (fun m y => if Qlt_le_dec y m then y else m) xs x in
  In m (x :: xs) /\ m <= x /\ Forall (fun y => m <= y) xs.
Proof.
  revert x. induction xs as [|y r IH]; intros x; simpl.
  - split; [now left|]. split; [lra|constructor].
  - destruct (Qlt_le_dec y x) as [Hlt|Hle].
    + destruct (IH y) as (Hin & Hm & Hall). simpl in Hin.
      split; [now right|]. split; [lra|]. constructor; assumption.
    + destruct (IH x) as (Hin & Hm & Hall). simpl in Hin.
      split; [destruct Hin as [Hin|Hin]; [now left|now right; right]|].
      split; [assumption|]. constructor; [lra|assumption].
Qed.

Lemma fold_max_spec (xs : list Q) (x : Q) :
  let m := fold_left (fun m y => if Qlt_le_dec m y then y else m) xs x in
  In m (x :: xs) /\ x <= m /\ Forall (fun y => y <= m) xs.
Proof.
  revert x. induction xs as [|y r IH]; intros x; simpl.
  - split; [now left|]. split; [lra|constructor].
  - destruct (Qlt_le_dec x y) as [Hlt|Hle].
    + destruct (IH y) as (Hin & Hm & Hall). simpl in Hin.
      split; [now right|]. split; [lra|]. constructor; assumption.
    + destruct (IH x) as (Hin & Hm & Hall). simpl in Hin.
      split; [destruct Hin as [Hin|Hin]; [now left|now right; right]|].
      split; [assumption|]. constructor; [lra|assumption].
Qed.

(** [min] over a generator that is not empty returns one of its values,
    and no value is smaller. *)
Lemma min_of_spec (xs : list Q) :
  xs <> [] ->
  exists m, Py.min_of xs = Ok m /\ In m xs /\ Forall (fun y => m <= y) xs.
Proof.
  destruct xs as [|x r]; [congruence|]. intros _.
  destruct (fold_min_spec r x) as (Hin & Hm & Hall).
  eexists. split; [reflexivity|]. split; [exact Hin|]. constructor; assumption.
Qed.

Lemma max_of_spec (xs : list Q) :
  xs <> [] ->
  exists m, Py.max_of xs = Ok m /\ In m xs /\ Forall (fun y => y <= m) xs.
Proof.
  destruct xs as [|x r]; [congruence|]. intros _.
  destruct (fold_max_spec r x) as (Hin & Hm & Hall).
  eexists. split; [reflexivity|]. split; [exact Hin|]. constructor; assumption.
Qed.

Lemma min2_Qmin (a b : Q) : Py.min2 a b == Qmin a b.
Proof.
  unfold Py.min2. destruct (Qlt_le_dec b a) as [H|H].
  - symmetry. apply Q.min_r. lra.
  - symmetry. apply Q.min_l. exact H.
Qed.

End MinMax.

Section StreamBounds.

Local Open Scope Q_scope.

Context (fl : FloatOps) {Hfl : SoundArith fl}.

Variable stream : Stream.
Hypothesis Hwf : well_formed stream.

Lemma stream_not_empty : stream <> [].
Proof. exact (proj1 Hwf). Qed.

Lemma ends_after_starts :
  Forall (fun trace => starttime trace <= endtime trace) stream.
Proof. exact (proj1 (proj2 Hwf)). Qed.

Lemma rate_nonneg : 0 <= stream_rate stream.
Proof. exact (proj2 (proj2 Hwf)). Qed.

Lemma starts_not_empty : map starttime stream <> [].
Proof. destruct stream; [now destruct Hwf|discriminate]. Qed.

Lemma ends_not_empty : map endtime stream <> [].
Proof. destruct stream; [now destruct Hwf|discriminate]. Qed.

Lemma min_of_starts : Py.min_of (map starttime stream) = Ok (earliest_start stream).
Proof.
  unfold earliest_start.
  destruct (min_of_spec _ starts_not_empty) as (m & E & _). now rewrite E.
Qed.

Lemma max_of_ends : Py.max_of (map endtime stream) = Ok (latest_end stream).
Proof.
  unfold latest_end.
  destruct (max_of_spec _ ends_not_empty) as (m & E & _). now rewrite E.
Qed.

(** The earliest start is the start of a trace and no trace starts before it. *)
Lemma earliest_start_spec :
  (exists trace, In trace stream /\ starttime trace = earliest_start stream) /\
  forall trace, In trace stream -> earliest_start stream <= starttime trace.
Proof.
  unfold earliest_start.
  destruct (min_of_spec _ starts_not_empty) as (m & E & Hin & Hall). rewrite E.
  split.
  - apply in_map_iff in Hin as (trace & Ht & Hin). eauto.
  - intros trace Ht. rewrite List.Forall_forall in Hall.
    apply Hall. now apply in_map.
Qed.

(** The latest end is the end of a trace and no trace ends after it. *)
Lemma latest_end_spec :
  (exists trace, In trace stream /\ endtime trace = latest_end stream) /\
  forall trace, In trace stream -> endtime trace <= latest_end stream.
Proof.
  unfold latest_end.
  destruct (max_of_spec _ ends_not_empty) as (m & E & Hin & Hall). rewrite E.
  split.
  - apply in_map_iff in Hin as (trace & Ht & Hin). eauto.
  - intros trace Ht. rewrite List.Forall_forall in Hall.
    apply Hall. now apply in_map.
Qed.

Lemma trace_inside (trace : Trace) :
  In trace stream ->
  earliest_start stream <= starttime trace /\
  starttime trace <= endtime trace /\
  endtime trace <= latest_end stream.
Proof.
  intros Hin. split; [now apply earliest_start_spec|].
  split; [|now apply latest_end_spec].
  pose proof ends_after_starts as H. rewrite List.Forall_forall in H. now apply H.
Qed.

Lemma span_nonneg :
  0 <= fl_mul fl (fl_time_sub fl (latest_end stream) (earliest_start stream))
         (stream_rate stream).
Proof.
  destruct (proj1 earliest_start_spec) as (trace & Hin & E).
  destruct (trace_inside trace Hin) as (H1 & H2 & H3).
  apply mul_nonneg; [|exact rate_nonneg].
  apply time_sub_nonneg. lra.
Qed.

(** Line 40 computes the floor: the product is not negative. *)
Lemma sample_count_floor :
  sample_count fl stream
  = (Qfloor (fl_mul fl (fl_time_sub fl (latest_end stream) (earliest_start stream))
               (stream_rate stream)) + 1)%Z.
Proof. unfold sample_count. now rewrite (int_floor _ span_nonneg). Qed.

Lemma sample_count_pos : (1 <= sample_count fl stream)%Z.
Proof. unfold sample_count. pose proof (int_nonneg _ span_nonneg). lia. Qed.

(** The offset of a trace of the stream is a valid column. *)
Lemma offset_in_range (trace : Trace) :
  In trace stream ->
  (0 <= offset_of fl stream trace <= sample_count fl stream - 1)%Z.
Proof.
  intros Hin. destruct (trace_inside trace Hin) as (H1 & H2 & H3).
  pose proof rate_nonneg as Hr.
  unfold offset_of, start_sample_of, sample_count.
  assert (H0 : 0 <= fl_mul fl (fl_time_sub fl (starttime trace) (earliest_start stream))
                      (stream_rate stream)).
  { apply mul_nonneg; [|exact Hr]. now apply time_sub_nonneg. }
  split; [now apply int_nonneg|].
  assert ((Py.int (fl_mul fl (fl_time_sub fl (starttime trace) (earliest_start stream))
                     (stream_rate stream))
           <= Py.int (fl_mul fl (fl_time_sub fl (latest_end stream) (earliest_start stream))
                        (stream_rate stream)))%Z).
  { apply int_mono; [exact H0|]. apply mul_mono_l; [exact Hr|].
    apply time_sub_mono. lra. }
  lia.
Qed.

(** The clamped length of a trace of the stream: not negative, at most the
    length of the trace, and the copy ends inside the row. *)
Lemma copied_in_range (trace : Trace) :
  In trace stream ->
  (0 <= copied_of fl stream trace)%Z /\
  (copied_of fl stream trace <= Z.of_nat (List.length (data trace)))%Z /\
  (offset_of fl stream trace + copied_of fl stream trace <= sample_count fl stream)%Z.
Proof.
  intros Hin. pose proof (offset_in_range trace Hin).
  unfold copied_of, copy_length. lia.
Qed.

End StreamBounds.

(** ** The array assembler: slices *)

Section Slices.

Lemma slice_bound_inside (i n : Z) : (0 <= i <= n)%Z -> Py.slice_bound i n = i.
Proof.
  intros H. unfold Py.slice_bound.
  destruct (Z.ltb_spec i 0); lia.
Qed.

Lemma slice_to_prefix {A : Type} (xs : list A) (l : Z) :
  (0 <= l <= Z.of_nat (List.length xs))%Z ->
  Py.slice_to xs l = take (Z.to_nat l) xs.
Proof. intros H. unfold Py.slice_to. now rewrite slice_bound_inside. Qed.

(** A slice assignment that lies inside the row and has the length of its
    value neither raises nor wraps around: it overwrites in place. *)
Lemma assign_slice_inside (row : list Q) (a l : Z) (v : list Q) :
  (0 <= a)%Z -> (0 <= l)%Z -> (a + l <= Z.of_nat (List.length row))%Z ->
  List.length v = Z.to_nat l ->
  Np.assign_slice row a (a + l) v = Ok (overwrite row (Z.to_nat a) v).
Proof.
  intros Ha Hl Hal Hv. unfold Np.assign_slice.
  rewrite !slice_bound_inside by lia.
  replace (Z.to_nat (Z.max 0 (a + l - a))) with (Z.to_nat l) by (f_equal; lia).
  rewrite Hv, Nat.eqb_refl. unfold overwrite. now rewrite Hv.
Qed.

Lemma overwrite_length (row : list Q) (off : nat) (v : list Q) :
  (off + List.length v <= List.length row)%nat ->
  List.length (overwrite row off v) = List.length row.
Proof.
  intros H. unfold overwrite.
  rewrite !length_app, length_take, length_drop. lia.
Qed.

(** Inside the written range the row holds the written values. *)
Lemma overwrite_lookup_inside (row : list Q) (off : nat) (v : list Q) (k : nat) :
  (off <= List.length row)%nat -> (k < List.length v)%nat ->
  overwrite row off v !! (off + k)%nat = v !! k.
Proof.
  intros Hoff Hk. unfold overwrite.
  rewrite lookup_app_r by (rewrite length_take; lia).
  rewrite length_take, Nat.min_l by lia.
  replace (off + k - off)%nat with k by lia.
  now rewrite lookup_app_l.
Qed.

(** Outside the written range the row is unchanged. *)
Lemma overwrite_lookup_outside (row : list Q) (off : nat) (v : list Q) (j : nat) :
  (off + List.length v <= List.length row)%nat ->
  (j < off \/ off + List.length v <= j)%nat ->
  overwrite row off v !! j = row !! j.
Proof.
  intros Hlen Hj. unfold overwrite. destruct Hj as [Hj|Hj].
  - rewrite lookup_app_l by (rewrite length_take; lia).
    apply lookup_take_lt. exact Hj.
  - rewrite lookup_app_r by (rewrite length_take; lia).
    rewrite length_take, Nat.min_l by lia.
    rewrite lookup_app_r by lia.
    rewrite lookup_drop. f_equal. lia.
Qed.

End Slices.

(** ** [sorted]: ordered, a permutation, and stable *)

Section SortedByKey.

Context {A : Type} (key : A -> Z).

Lemma insert_by_Permutation (x : A) (l : list A) :
  Permutation (Py.insert_by key x l) (x :: l).
Proof.
  induction l as [|y r IH]; simpl; [reflexivity|].
  destruct (key x <=? key y)%Z; [reflexivity|].
  rewrite IH. apply perm_swap.
Qed.

Lemma sorted_Permutation (l : list A) : Permutation (Py.sorted key l) l.
Proof.
  induction l as [|x r IH]; simpl; [reflexivity|].
  rewrite insert_by_Permutation. now constructor.
Qed.

Lemma sorted_In (l : list A) (x : A) : In x (Py.sorted key l) <-> In x l.
Proof.
  split; apply Permutation_in; [|symmetry]; apply sorted_Permutation.
Qed.

Lemma sorted_length (l : list A) : List.length (Py.sorted key l) = List.length l.
Proof. apply Permutation_length, sorted_Permutation. Qed.

Lemma insert_by_sorted (x : A) (l : list A) :
  StronglySorted (key_le key) l -> StronglySorted (key_le key) (Py.insert_by key x l).
Proof.
  induction 1 as [|y r Hr IH Hy]; simpl.
  - constructor; constructor.
  - destruct (Z.leb_spec (key x) (key y)) as [Hxy|Hxy].
    + constructor; [constructor; assumption|].
      constructor; [exact Hxy|].
      rewrite List.Forall_forall in Hy |- *. intros z Hz.
      specialize (Hy z Hz). unfold key_le in *. lia.
    + constructor; [exact IH|].
      rewrite List.Forall_forall in Hy |- *. intros z Hz.
      apply (Permutation_in _ (insert_by_Permutation x r)) in Hz.
      destruct Hz as [<-|Hz]; [unfold key_le; lia|auto].
Qed.

Lemma sorted_StronglySorted (l : list A) : StronglySorted (key_le key) (Py.sorted key l).
Proof.
  induction l as [|x r IH]; simpl; [constructor|].
  now apply insert_by_sorted.
Qed.

(** Stability: the elements of one key keep the order they had. *)
Lemma insert_by_filter (k : Z) (x : A) (l : list A) :
  List.filter (fun y => (key y =? k)%Z) (Py.insert_by key x l)
  = List.filter (fun y => (key y =? k)%Z) (x :: l).
Proof.
  induction l as [|y r IH]; simpl; [reflexivity|].
  destruct (Z.leb_spec (key x) (key y)) as [Hxy|Hxy]; [reflexivity|].
  simpl. rewrite IH. simpl.
  destruct (Z.eqb_spec (key x) k), (Z.eqb_spec (key y) k); try reflexivity.
  lia.
Qed.

Lemma sorted_stable (k : Z) (l : list A) :
  List.filter (fun y => (key y =? k)%Z) (Py.sorted key l)
  = List.filter (fun y => (key y =? k)%Z) l.
Proof.
  induction l as [|x r IH]; simpl; [reflexivity|].
  rewrite insert_by_filter. simpl. now rewrite IH.
Qed.

(** Of two elements with different keys the one with the larger key comes
    second. *)
Lemma sorted_pair (a b : A) :
  (key a < key b)%Z ->
  Py.sorted key [a; b] = [a; b] /\ Py.sorted key [b; a] = [a; b].
Proof.
  intros H. unfold Py.sorted. simpl.
  destruct (Z.leb_spec (key a) (key b)), (Z.leb_spec (key b) (key a)); try lia.
  split; reflexivity.
Qed.

End SortedByKey.

(** ** The monad: how a computation runs *)

Section MonadRuns.

Lemma bind_run {A B : Type} (m : M A) (k : A -> M B) log a log' :
  m log = (Ok a, log') -> bind m k log = k a log'.
Proof. intros H. unfold bind. now rewrite H. Qed.

Lemma bind_lift_ok {A B : Type} (r : result A) (k : A -> M B) log a :
  r = Ok a -> bind (lift r) k log = k a log.
Proof. intros ->. reflexivity. Qed.

Lemma bind_inv {A B : Type} (m : M A) (k : A -> M B) log b log2 :
  bind m k log = (Ok b, log2) ->
  exists a log1, m log = (Ok a, log1) /\ k a log1 = (Ok b, log2).
Proof.
  unfold bind. destruct (m log) as [[a|e] log1]; intros H.
  - now exists a, log1.
  - discriminate.
Qed.

Lemma emits_ret {A : Type} (a : A) : emits (ret a) [].
Proof. intros log b log' H. inversion H. now rewrite app_nil_r. Qed.

Lemma emits_lift {A : Type} (r : result A) : emits (lift r) [].
Proof. intros log b log' H. inversion H. now rewrite app_nil_r. Qed.

Lemma emits_raise {A : Type} (e : exn) ws : emits (@raise A e) ws.
Proof. intros log b log' H. discriminate. Qed.

Lemma emits_warning (w : Warning) : emits (logger_warning w) [w].
Proof. intros log b log' H. now inversion H. Qed.

Lemma emits_bind {A B : Type} (m : M A) (k : A -> M B) ws1 ws2 :
  emits m ws1 -> (forall a, emits (k a) ws2) -> emits (bind m k) (ws1 ++ ws2).
Proof.
  intros Hm Hk log b log2 H.
  apply bind_inv in H as (a & log1 & H1 & H2).
  apply Hm in H1. apply Hk in H2. subst. now rewrite app_assoc.
Qed.

Lemma emits_for_each {S X : Type} (body : S -> X -> M S) (g : X -> list Warning) xs :
  (forall s x, emits (body s x) (g x)) ->
  forall s, emits (for_each body xs s) (flat_map g xs).
Proof.
  intros Hbody. induction xs as [|x r IH]; intros s; simpl.
  - apply emits_ret.
  - apply emits_bind; [apply Hbody|]. intros s'. apply IH.
Qed.

End MonadRuns.

(** ** The array assembler: how the loops run on a well-formed stream *)

Section AssemblerRuns.

Local Open Scope Q_scope.

Variable fnmatch : string -> string -> bool.
Context (fl : FloatOps) {Hfl : SoundArith fl}.

Lemma select_In (stream : Stream) (c : ascii) (trace : Trace) :
  In trace (select fnmatch stream c) -> In trace stream.
Proof. unfold select. intros H. now apply filter_In in H. Qed.

Lemma processing_order_Permutation (stream : Stream) (c : ascii) :
  Permutation (processing_order fnmatch stream c) (select fnmatch stream c).
Proof.
  unfold processing_order.
  destruct (1 <? _)%Z; [apply sorted_Permutation|reflexivity].
Qed.

Lemma processing_order_In (stream : Stream) (c : ascii) (trace : Trace) :
  In trace (processing_order fnmatch stream c) -> In trace stream.
Proof.
  intros H. apply (select_In stream c).
  exact (Permutation_in _ (processing_order_Permutation stream c) H).
Qed.

Lemma copied_samples_length (stream : Stream) (trace : Trace) :
  well_formed stream -> In trace stream ->
  List.length (copied_samples fl stream trace) = Z.to_nat (copied_of fl stream trace).
Proof.
  intros Hwf Hin. destruct (copied_in_range fl stream Hwf trace Hin) as (H1 & H2 & H3).
  unfold copied_samples. rewrite length_take. lia.
Qed.

(** Lines 55-58 on a trace of the stream: the write succeeds and is the
    in-place overwrite of the row at the trace's offset. *)
Lemma write_trace_run (stream : Stream) (c_idx : nat) (array : list (list Q))
    (row : list Q) (acc : Q) (trace : Trace) (log : list Warning) :
  well_formed stream -> In trace stream ->
  array !! c_idx = Some row ->
  List.length row = Z.to_nat (sample_count fl stream) ->
  write_trace fl (earliest_start stream) (stream_rate stream) (sample_count fl stream) c_idx
    (array, acc) trace log
  = (Ok (<[c_idx := overwrite row (Z.to_nat (offset_of fl stream trace))
                      (copied_samples fl stream trace)]> array,
         acc + inject_Z (copied_of fl stream trace)),
     log).
Proof.
  intros Hwf Hin Hrow Hlen.
  destruct (copied_in_range fl stream Hwf trace Hin) as (H1 & H2 & H3).
  pose proof (offset_in_range fl stream Hwf trace Hin) as Hoff.
  pose proof (copied_samples_length stream trace Hwf Hin) as Hcs.
  unfold write_trace. cbn [fst snd].
  change (start_sample_of fl (earliest_start stream) (stream_rate stream) trace)
    with (offset_of fl stream trace).
  change (copy_length (sample_count fl stream) (offset_of fl stream trace) trace)
    with (copied_of fl stream trace).
  rewrite slice_to_prefix by lia.
  change (take (Z.to_nat (copied_of fl stream trace)) (data trace))
    with (copied_samples fl stream trace).
  unfold Np.assign_row_slice. rewrite Hrow.
  rewrite assign_slice_inside by (try exact Hcs; lia).
  reflexivity.
Qed.

(** The loop of lines 54-58 over traces of the stream. *)
Lemma traces_run (stream : Stream) (c_idx : nat) (traces : list Trace) :
  well_formed stream ->
  (forall trace, In trace traces -> In trace stream) ->
  forall (array : list (list Q)) (row : list Q) (acc : Q) (log : list Warning),
  array !! c_idx = Some row ->
  List.length row = Z.to_nat (sample_count fl stream) ->
  for_each
    (write_trace fl (earliest_start stream) (stream_rate stream) (sample_count fl stream) c_idx)
    traces (array, acc) log
  = (Ok (<[c_idx := fold_left
                      (fun row trace =>
                         overwrite row (Z.to_nat (offset_of fl stream trace))
                           (copied_samples fl stream trace))
                      traces row]> array,
         fold_left (fun acc trace => acc + inject_Z (copied_of fl stream trace)) traces acc),
     log).
Proof.
  intros Hwf. induction traces as [|trace rest IH]; intros Hsub array row acc log Hrow Hlen.
  - simpl. unfold ret. now rewrite list_insert_id.
  - assert (Hin : In trace stream) by (apply Hsub; now left).
    destruct (copied_in_range fl stream Hwf trace Hin) as (H1 & H2 & H3).
    pose proof (offset_in_range fl stream Hwf trace Hin) as Hoff.
    pose proof (copied_samples_length stream trace Hwf Hin) as Hcs.
    cbn [for_each fold_left].
    rewrite (bind_run _ _ _ _ _ (write_trace_run stream c_idx array row acc trace log
                                   Hwf Hin Hrow Hlen)).
    rewrite (IH (fun t Ht => Hsub t (or_intror Ht)) _
               (overwrite row (Z.to_nat (offset_of fl stream trace))
                  (copied_samples fl stream trace))).
    + now rewrite list_insert_insert_eq.
    + apply list_lookup_insert_eq. now apply lookup_lt_Some in Hrow.
    + rewrite overwrite_length; [exact Hlen|]. rewrite Hcs. lia.
Qed.

(** Lines 46-51: the warning and the order of the traces. *)
Lemma order_run (stream : Stream) (c : ascii) (log : list Warning) :
  (if (1 <? Z.of_nat (List.length (select fnmatch stream c)))%Z then
     match select fnmatch stream c, stream with
     | first_match :: _, first_trace :: _ =>
         do _ <- logger_warning (mkWarning (trace_id first_match) (starttime first_trace));
         ret (Py.sorted npts (select fnmatch stream c))
     | _, _ => raise IndexError
     end
   else ret (select fnmatch stream c)) log
  = (Ok (processing_order fnmatch stream c),
     log ++ component_warnings fnmatch stream c).
Proof.
  unfold processing_order, component_warnings.
  destruct (select fnmatch stream c) as [|a [|b r]] eqn:E; cbn [List.length].
  - simpl. unfold ret. now rewrite app_nil_r.
  - simpl. unfold ret. now rewrite app_nil_r.
  - assert (Hgt : (1 <? Z.of_nat (S (S (List.length r))))%Z = true)
      by (apply Z.ltb_lt; lia).
    rewrite Hgt.
    destruct stream as [|first_trace rest]; [discriminate E|].
    reflexivity.
Qed.

Lemma sample_count_nonzero (stream : Stream) :
  well_formed stream -> (sample_count fl stream =? 0)%Z = false.
Proof. intros Hwf. pose proof (sample_count_pos fl stream Hwf). apply Z.eqb_neq. lia. Qed.

(** Lines 45-60 on a row that is still all zero. *)
Lemma process_component_run (stream : Stream) (c_idx : nat) (c : ascii)
    (array : list (list Q)) (completeness : Q) (log : list Warning) :
  well_formed stream ->
  array !! c_idx = Some (replicate (Z.to_nat (sample_count fl stream)) 0) ->
  process_component fnmatch fl stream (earliest_start stream) (stream_rate stream)
    (sample_count fl stream) (array, completeness) (c_idx, c) log
  = (Ok (<[c_idx := filled_row fnmatch fl stream c]> array,
         completeness
         + Py.min2 1
             (fold_left (fun acc trace => acc + inject_Z (copied_of fl stream trace))
                (processing_order fnmatch stream c) 0
              / inject_Z (sample_count fl stream))),
     log ++ component_warnings fnmatch stream c).
Proof.
  intros Hwf Hrow. unfold process_component. cbn [fst snd].
  rewrite (bind_run _ _ _ _ _ (order_run stream c log)).
  rewrite (bind_run _ _ _ _ _
             (traces_run stream c_idx (processing_order fnmatch stream c) Hwf
                (processing_order_In stream c) array _ 0 _ Hrow
                (length_replicate _ _))).
  cbn [fst snd]. unfold Py.truediv. rewrite (sample_count_nonzero stream Hwf).
  reflexivity.
Qed.

(** The loop of lines 44-60, started at component index [length done] with
    the rows of the remaining components still all zero. *)
Lemma components_run (stream : Stream) (components : list ascii) :
  well_formed stream ->
  forall (done : list (list Q)) (completeness : Q) (log : list Warning),
  for_each
    (process_component fnmatch fl stream (earliest_start stream) (stream_rate stream)
       (sample_count fl stream))
    (Py.enumerate_from (List.length done) components)
    (done ++ replicate (List.length components)
               (replicate (Z.to_nat (sample_count fl stream)) 0),
     completeness) log
  = (Ok (done ++ map (filled_row fnmatch fl stream) components,
         fold_left
           (fun acc c =>
              acc + Py.min2 1
                      (fold_left (fun acc trace => acc + inject_Z (copied_of fl stream trace))
                         (processing_order fnmatch stream c) 0
                       / inject_Z (sample_count fl stream)))
           components completeness),
     log ++ flat_map (component_warnings fnmatch stream) components).
Proof.
  intros Hwf. induction components as [|c rest IH]; intros done completeness log.
  - simpl. unfold ret. now rewrite !app_nil_r.
  - cbn [Py.enumerate_from for_each List.length replicate map fold_left flat_map].
    rewrite (bind_run _ _ _ _ _
               (process_component_run stream (List.length done) c _ completeness log Hwf
                  (list_lookup_middle done _ _ _ eq_refl))).
    rewrite (insert_app_r_alt done) by lia.
    rewrite Nat.sub_diag. cbn [list_insert insert].
    specialize (IH (done ++ [filled_row fnmatch fl stream c])).
    rewrite length_app in IH. cbn [List.length] in IH.
    rewrite Nat.add_1_r in IH.
    rewrite <- !app_assoc in IH. cbn [app] in IH.
    rewrite IH. now rewrite <- app_assoc.
Qed.

End AssemblerRuns.

(** ** The array assembler: the whole function *)

Section AssemblerResult.

Local Open Scope Q_scope.

Variable fnmatch : string -> string -> bool.
Context (fl : FloatOps) {Hfl : SoundArith fl}.

(** [stream_to_array] on a well-formed stream and a component order that
    is not empty: it returns, and what it returns. *)
Lemma stream_to_array_run (stream : Stream) (component_order : list ascii)
    (log : list Warning) :
  well_formed stream -> component_order <> [] ->
  stream_to_array fnmatch fl stream component_order log
  = (Ok (earliest_start stream,
         Np.sub_row_mean (map (filled_row fnmatch fl stream) component_order),
         fold_left
           (fun acc c =>
              acc + Py.min2 1
                      (fold_left (fun acc trace => acc + inject_Z (copied_of fl stream trace))
                         (processing_order fnmatch stream c) 0
                       / inject_Z (sample_count fl stream)))
           component_order 0
         / inject_Z (Z.of_nat (List.length component_order))),
     log ++ flat_map (component_warnings fnmatch stream) component_order).
Proof.
  intros Hwf Hco. unfold stream_to_array.
  rewrite (bind_lift_ok _ _ _ _ (min_of_starts stream Hwf)).
  rewrite (bind_lift_ok _ _ _ _ (max_of_ends stream Hwf)).
  assert (Hfirst : exists first_trace rest, stream = first_trace :: rest).
  { destruct stream as [|t r]; [now destruct Hwf|eauto]. }
  destruct Hfirst as (first_trace & rest & Hs).
  assert (E1 : Py.first stream = Ok first_trace) by now rewrite Hs.
  rewrite (bind_lift_ok _ _ _ _ E1).
  assert (Hrate : sampling_rate first_trace = stream_rate stream) by now rewrite Hs.
  rewrite Hrate.
  change (Py.int (fl_mul fl (fl_time_sub fl (latest_end stream) (earliest_start stream))
                    (stream_rate stream)) + 1)%Z
    with (sample_count fl stream).
  assert (E2 : Np.zeros (List.length component_order) (sample_count fl stream)
               = Ok (replicate (List.length component_order)
                       (replicate (Z.to_nat (sample_count fl stream)) 0))).
  { unfold Np.zeros. pose proof (sample_count_pos fl stream Hwf).
    destruct (Z.ltb_spec (sample_count fl stream) 0); [lia|reflexivity]. }
  rewrite (bind_lift_ok _ _ _ _ E2).
  rewrite (bind_run _ _ _ _ _
             (components_run fnmatch fl stream component_order Hwf [] 0 log)).
  cbn [fst snd app]. unfold Py.truediv.
  destruct (Z.eqb_spec (Z.of_nat (List.length component_order)) 0) as [E|E].
  - destruct component_order; [congruence|discriminate E].
  - reflexivity.
Qed.

Lemma copied_sum (stream : Stream) (traces : list Trace) (acc : Q) :
  fold_left (fun acc trace => acc + inject_Z (copied_of fl stream trace)) traces acc
  == acc + inject_Z (fold_right Z.add 0%Z (map (copied_of fl stream) traces)).
Proof.
  revert acc. induction traces as [|trace rest IH]; intros acc; simpl.
  - unfold inject_Z. lra.
  - rewrite IH, inject_Z_plus. lra.
Qed.

Lemma component_fraction (stream : Stream) (c : ascii) :
  Py.min2 1
    (fold_left (fun acc trace => acc + inject_Z (copied_of fl stream trace))
       (processing_order fnmatch stream c) 0
     / inject_Z (sample_count fl stream))
  == component_completeness fnmatch fl stream c.
Proof.
  unfold component_completeness, copied_total.
  rewrite min2_Qmin, copied_sum, Qplus_0_l. reflexivity.
Qed.

Lemma completeness_sum (stream : Stream) (components : list ascii) (acc : Q) :
  fold_left
    (fun acc c =>
       acc + Py.min2 1
               (fold_left (fun acc trace => acc + inject_Z (copied_of fl stream trace))
                  (processing_order fnmatch stream c) 0
                / inject_Z (sample_count fl stream)))
    components acc
  == acc + fold_right Qplus 0 (map (component_completeness fnmatch fl stream) components).
Proof.
  revert acc. induction components as [|c rest IH]; intros acc; simpl.
  - lra.
  - rewrite IH, component_fraction. lra.
Qed.

Lemma copied_total_nonneg (stream : Stream) (c : ascii) :
  well_formed stream -> (0 <= copied_total fnmatch fl stream c)%Z.
Proof.
  intros Hwf. unfold copied_total.
  pose proof (processing_order_In fnmatch stream c) as Hsub.
  induction (processing_order fnmatch stream c) as [|trace rest IH]; simpl; [lia|].
  assert (Hin : In trace stream) by (apply Hsub; now left).
  destruct (copied_in_range fl stream Hwf trace Hin) as (H1 & _).
  specialize (IH (fun t Ht => Hsub t (or_intror Ht))). lia.
Qed.

(** A component's completeness lies in [0, 1]. *)
Lemma component_completeness_range (stream : Stream) (c : ascii) :
  well_formed stream ->
  0 <= component_completeness fnmatch fl stream c <= 1.
Proof.
  intros Hwf. unfold component_completeness. split.
  - apply Q.min_glb; [lra|].
    pose proof (copied_total_nonneg stream c Hwf) as H1.
    pose proof (sample_count_pos fl stream Hwf) as H2.
    apply Qle_shift_div_l.
    + change 0 with (inject_Z 0). rewrite <- Zlt_Qlt. lia.
    + rewrite Qmult_0_l. change 0 with (inject_Z 0). rewrite <- Zle_Qle. exact H1.
  - apply Q.le_min_l.
Qed.

(** A component without a matching trace has completeness 0. *)
Lemma component_completeness_missing (stream : Stream) (c : ascii) :
  select fnmatch stream c = [] ->
  component_completeness fnmatch fl stream c == 0.
Proof.
  intros H. unfold component_completeness, copied_total, processing_order.
  rewrite H. simpl. unfold Qdiv. rewrite Qmult_0_l.
  apply Q.min_r. lra.
Qed.

Lemma completeness_total_range (stream : Stream) (components : list ascii) :
  well_formed stream ->
  0 <= fold_right Qplus 0 (map (component_completeness fnmatch fl stream) components)
    <= inject_Z (Z.of_nat (List.length components)).
Proof.
  intros Hwf. induction components as [|c rest IH].
  - split; apply Qle_refl.
  - cbn [map fold_right List.length].
    pose proof (component_completeness_range stream c Hwf).
    rewrite Nat2Z.inj_succ. unfold Z.succ. rewrite inject_Z_plus.
    change (inject_Z 1) with 1. lra.
Qed.

Lemma overall_completeness_range (stream : Stream) (component_order : list ascii) :
  well_formed stream -> component_order <> [] ->
  0 <= overall_completeness fnmatch fl stream component_order <= 1.
Proof.
  intros Hwf Hco. unfold overall_completeness.
  pose proof (completeness_total_range stream component_order Hwf) as [H1 H2].
  assert (Hn : 0 < inject_Z (Z.of_nat (List.length component_order))).
  { change 0 with (inject_Z 0). rewrite <- Zlt_Qlt.
    destruct component_order; [congruence|simpl; lia]. }
  split.
  - apply Qle_shift_div_l; [exact Hn|]. now rewrite Qmult_0_l.
  - apply Qle_shift_div_r; [exact Hn|]. now rewrite Qmult_1_l.
Qed.

(** Two components, one of them without any trace: at most one half. *)
Lemma overall_completeness_half (stream : Stream) (a b : ascii) :
  well_formed stream ->
  select fnmatch stream a = [] \/ select fnmatch stream b = [] ->
  overall_completeness fnmatch fl stream [a; b] <= 1 # 2.
Proof.
  intros Hwf Hmiss. unfold overall_completeness. cbn [map fold_right List.length].
  pose proof (component_completeness_range stream a Hwf).
  pose proof (component_completeness_range stream b Hwf).
  apply Qle_shift_div_r; [reflexivity|].
  destruct Hmiss as [Hm|Hm]; apply component_completeness_missing in Hm;
    rewrite Hm; change (inject_Z (Z.of_nat 2)) with 2; lra.
Qed.

End AssemblerResult.

(** ** The array assembler: the properties of the specification *)

Section AssemblerClaims.

Local Open Scope Q_scope.

Variable fnmatch : string -> string -> bool.
Context (fl : FloatOps) {Hfl : SoundArith fl}.

Lemma filled_row_length (stream : Stream) (c : ascii) :
  well_formed stream ->
  List.length (filled_row fnmatch fl stream c) = Z.to_nat (sample_count fl stream).
Proof.
  intros Hwf. unfold filled_row.
  pose proof (processing_order_In fnmatch stream c) as Hsub.
  assert (H0 : List.length (replicate (Z.to_nat (sample_count fl stream)) (0 : Q))
               = Z.to_nat (sample_count fl stream)) by apply length_replicate.
  revert H0. generalize (replicate (Z.to_nat (sample_count fl stream)) (0 : Q)).
  induction (processing_order fnmatch stream c) as [|trace rest IH]; intros row Hrow.
  - exact Hrow.
  - cbn [fold_left].
    assert (Hin : In trace stream) by (apply Hsub; now left).
    destruct (copied_in_range fl stream Hwf trace Hin) as (H1 & H2 & H3).
    pose proof (offset_in_range fl stream Hwf trace Hin) as Hoff.
    apply IH; [intros t Ht; apply Hsub; now right|].
    rewrite overwrite_length; [exact Hrow|].
    rewrite (copied_samples_length fl stream trace Hwf Hin). lia.
Qed.

Lemma sub_row_mean_lookup (array : list (list Q)) (i : nat) (row : list Q) :
  array !! i = Some row ->
  Np.sub_row_mean array !! i = Some (map (fun x => x - Np.mean row) row).
Proof. intros H. unfold Np.sub_row_mean. now rewrite list_lookup_fmap, H. Qed.

Lemma sum_shift (row : list Q) (m : Q) :
  Np.sum (map (fun x => x - m) row)
  == Np.sum row - inject_Z (Z.of_nat (List.length row)) * m.
Proof.
  induction row as [|x r IH].
  - unfold Np.sum. cbn [map fold_right List.length].
    change (inject_Z (Z.of_nat 0)) with 0. lra.
  - cbn [map Np.sum fold_right List.length]. fold (Np.sum (map (fun x => x - m) r)).
    fold (Np.sum r). rewrite IH, Nat2Z.inj_succ. unfold Z.succ.
    rewrite inject_Z_plus. change (inject_Z 1) with 1. lra.
Qed.

(** A row from which its mean was subtracted has mean zero. *)
Lemma mean_removed (row : list Q) :
  Np.mean (map (fun x => x - Np.mean row) row) == 0.
Proof.
  unfold Np.mean at 1. rewrite sum_shift, length_map.
  destruct row as [|x r].
  - simpl. reflexivity.
  - unfold Np.mean.
    assert (Hn : ~ inject_Z (Z.of_nat (List.length (x :: r))) == 0).
    { change 0 with (inject_Z 0). rewrite inject_Z_injective. simpl. lia. }
    field. exact Hn.
Qed.

(** What a run that returns has returned: an array with the mean of each
    row removed. *)
Lemma stream_to_array_inv (stream : Stream) (component_order : list ascii)
    log start array completeness log' :
  stream_to_array fnmatch fl stream component_order log
  = (Ok (start, array, completeness), log') ->
  exists filled, array = Np.sub_row_mean filled.
Proof.
  unfold stream_to_array. intros H.
  apply bind_inv in H as (t0 & l0 & _ & H).
  apply bind_inv in H as (t1 & l1 & _ & H).
  apply bind_inv in H as (tr & l2 & _ & H).
  apply bind_inv in H as (z & l3 & _ & H).
  apply bind_inv in H as (filled & l4 & _ & H).
  apply bind_inv in H as (cc & l5 & _ & H).
  unfold ret in H. inversion H. eauto.
Qed.

(** C1. On a well-formed stream and a component order that is not empty
    the assembler returns, and the completeness it returns is the average
    over the requested components of min(1, copied samples of the component
    / number of output samples).  It lies in [0, 1]; a component without a
    matching trace contributes 0; with two requested components of which one
    has no trace it is at most 1/2. *)
Theorem completeness_is_average (stream : Stream) (component_order : list ascii)
    (log : list Warning) :
  well_formed stream -> component_order <> [] ->
  exists start array completeness log',
    stream_to_array fnmatch fl stream component_order log
    = (Ok (start, array, completeness), log') /\
    completeness
    == fold_right Qplus 0
         (map (fun c => Qmin 1 (inject_Z (copied_total fnmatch fl stream c)
                                / inject_Z (sample_count fl stream)))
            component_order)
       / inject_Z (Z.of_nat (List.length component_order)) /\
    0 <= completeness <= 1 /\
    (forall c, select fnmatch stream c = [] ->
       Qmin 1 (inject_Z (copied_total fnmatch fl stream c) / inject_Z (sample_count fl stream))
       == 0) /\
    (forall a b, component_order = [a; b] ->
       select fnmatch stream a = [] \/ select fnmatch stream b = [] ->
       completeness <= 1 # 2).
Proof.
  intros Hwf Hco.
  do 4 eexists. split; [apply (stream_to_array_run fnmatch fl stream component_order log Hwf Hco)|].
  assert (E : fold_left
           (fun acc c =>
              acc + Py.min2 1
                      (fold_left (fun acc trace => acc + inject_Z (copied_of fl stream trace))
                         (processing_order fnmatch stream c) 0
                       / inject_Z (sample_count fl stream)))
           component_order 0
         / inject_Z (Z.of_nat (List.length component_order))
         == overall_completeness fnmatch fl stream component_order).
  { unfold overall_completeness. rewrite completeness_sum, Qplus_0_l. reflexivity. }
  split; [exact E|]. split; [|split].
  - rewrite E. now apply overall_completeness_range.
  - intros c Hc. exact (component_completeness_missing fnmatch fl stream c Hc).
  - intros a b -> Hmiss. rewrite E. now apply overall_completeness_half.
Qed.

Lemma fold_left_ext_in {A B : Type} (f g : A -> B -> A) (l : list B) :
  (forall a x, In x l -> f a x = g a x) ->
  forall a, fold_left f l a = fold_left g l a.
Proof.
  induction l as [|x r IH]; intros H a; [reflexivity|].
  cbn [fold_left]. rewrite (H a x (or_introl eq_refl)).
  apply IH. intros a' y Hy. apply H. now right.
Qed.

(** The filled row, with the slices of line 57 written out. *)
Lemma filled_row_explicit (stream : Stream) (c : ascii) :
  well_formed stream ->
  filled_row fnmatch fl stream c
  = fold_left
      (fun row trace =>
         take (Z.to_nat (offset_of fl stream trace)) row
         ++ take (Z.to_nat (copied_of fl stream trace)) (data trace)
         ++ drop (Z.to_nat (offset_of fl stream trace)
                  + Z.to_nat (copied_of fl stream trace)) row)
      (processing_order fnmatch stream c)
      (replicate (Z.to_nat (sample_count fl stream)) 0).
Proof.
  intros Hwf. unfold filled_row. apply fold_left_ext_in.
  intros row trace Hin. apply (processing_order_In fnmatch stream c) in Hin.
  unfold overwrite. rewrite (copied_samples_length fl stream trace Hwf Hin).
  reflexivity.
Qed.

(** C2. On a well-formed stream the assembler returns an array with one
    row per requested component and floor(p) + 1 columns, where p is the
    float product (end - start) * rate as the machine computes it, start the
    earliest start of a trace and end the latest end.  The returned row of a
    component is the row of zeros into which, for each matching trace in the
    order of processing, the first l = min(length of the trace, columns -
    offset) samples of the trace were copied at the positions from
    offset = trunc((trace start - start) * rate) on, minus its mean; each
    such copy has exactly l samples and lies inside the row.  The body of the
    loop, lines 55-58, performs one such copy on any row of that length. *)
Theorem array_shape_and_copies (stream : Stream) (component_order : list ascii)
    (log : list Warning) :
  well_formed stream -> component_order <> [] ->
  let start := earliest_start stream in
  let rate := stream_rate stream in
  let samples :=
    (Qfloor (fl_mul fl (fl_time_sub fl (latest_end stream) start) rate) + 1)%Z in
  let offset := fun trace : Trace =>
    Py.int (fl_mul fl (fl_time_sub fl (starttime trace) start) rate) in
  let l := fun trace : Trace =>
    Z.min (Z.of_nat (List.length (data trace))) (samples - offset trace) in
  ((exists trace, In trace stream /\ starttime trace = start) /\
   (forall trace, In trace stream -> start <= starttime trace) /\
   (exists trace, In trace stream /\ endtime trace = latest_end stream) /\
   (forall trace, In trace stream -> endtime trace <= latest_end stream)) /\
  (exists array completeness log',
     stream_to_array fnmatch fl stream component_order log
     = (Ok (start, array, completeness), log') /\
     List.length array = List.length component_order /\
     Forall (fun row => Z.of_nat (List.length row) = samples) array /\
     array
     = map (fun c =>
              let filled :=
                fold_left
                  (fun row trace =>
                     take (Z.to_nat (offset trace)) row
                     ++ take (Z.to_nat (l trace)) (data trace)
                     ++ drop (Z.to_nat (offset trace) + Z.to_nat (l trace)) row)
                  (processing_order fnmatch stream c)
                  (replicate (Z.to_nat samples) 0) in
              map (fun x => x - Np.mean filled) filled)
         component_order) /\
  (forall trace, In trace stream ->
     (0 <= offset trace)%Z /\ (0 <= l trace)%Z /\ (offset trace + l trace <= samples)%Z /\
     List.length (take (Z.to_nat (l trace)) (data trace)) = Z.to_nat (l trace)) /\
  (forall trace c_idx array row acc log0,
     In trace stream ->
     array !! c_idx = Some row ->
     Z.of_nat (List.length row) = samples ->
     write_trace fl start rate samples c_idx (array, acc) trace log0
     = (Ok (<[c_idx := take (Z.to_nat (offset trace)) row
                       ++ take (Z.to_nat (l trace)) (data trace)
                       ++ drop (Z.to_nat (offset trace) + Z.to_nat (l trace)) row]> array,
            acc + inject_Z (l trace)),
        log0)).
Proof.
  intros Hwf Hco. cbv zeta. rewrite <- (sample_count_floor fl stream Hwf).
  split; [|split; [|split]].
  - destruct (earliest_start_spec stream Hwf) as [H1 H2].
    destruct (latest_end_spec stream Hwf) as [H3 H4]. auto.
  - do 3 eexists.
    split; [apply (stream_to_array_run fnmatch fl stream component_order log Hwf Hco)|].
    unfold Np.sub_row_mean. rewrite !length_map. split; [reflexivity|]. split.
    + rewrite List.Forall_forall. intros row Hrow.
      apply in_map_iff in Hrow as (r & <- & Hr).
      apply in_map_iff in Hr as (c & <- & _).
      rewrite length_map, filled_row_length by exact Hwf.
      pose proof (sample_count_pos fl stream Hwf). lia.
    + rewrite map_map. apply map_ext. intros c.
      rewrite (filled_row_explicit stream c Hwf). reflexivity.
  - intros trace Hin.
    destruct (copied_in_range fl stream Hwf trace Hin) as (H1 & H2 & H3).
    pose proof (offset_in_range fl stream Hwf trace Hin) as Hoff.
    pose proof (copied_samples_length fl stream trace Hwf Hin) as Hcs.
    repeat split; try exact H1; try exact H3; try exact Hcs. apply Hoff.
  - intros trace c_idx array row acc log0 Hin Hrow Hlen.
    assert (Hlen' : List.length row = Z.to_nat (sample_count fl stream)) by lia.
    pose proof (write_trace_run fl stream c_idx array row acc trace log0 Hwf Hin Hrow Hlen')
      as Hrun.
    pose proof (copied_samples_length fl stream trace Hwf Hin) as Hcs.
    change (Py.int (fl_mul fl (fl_time_sub fl (starttime trace) (earliest_start stream))
                      (stream_rate stream)))
      with (offset_of fl stream trace).
    change (Z.min (Z.of_nat (List.length (data trace)))
              (sample_count fl stream - offset_of fl stream trace))
      with (copied_of fl stream trace).
    rewrite Hrun. unfold overwrite. rewrite Hcs. reflexivity.
Qed.

(** C9. On a well-formed stream every write is within bounds: for each
    trace of the stream the offset lies in [0, columns - 1], the clamped
    length is not negative and not larger than the trace, the copy ends at
    or before the last column, and the bounds of the slice written are the
    ones computed (Python neither clips them nor counts them from the end). *)
Theorem writes_in_bounds (stream : Stream) (trace : Trace) :
  well_formed stream -> In trace stream ->
  let samples := sample_count fl stream in
  let offset := offset_of fl stream trace in
  let l := copied_of fl stream trace in
  (earliest_start stream <= starttime trace /\ endtime trace <= latest_end stream) /\
  (0 <= offset <= samples - 1)%Z /\
  (0 <= l <= Z.of_nat (List.length (data trace)))%Z /\
  (offset + l <= samples)%Z /\
  Py.slice_bound offset samples = offset /\
  Py.slice_bound (offset + l) samples = (offset + l)%Z.
Proof.
  intros Hwf Hin samples offset l.
  destruct (trace_inside stream Hwf trace Hin) as (H1 & H2 & H3).
  destruct (copied_in_range fl stream Hwf trace Hin) as (H4 & H5 & H6).
  pose proof (offset_in_range fl stream Hwf trace Hin) as H7.
  subst samples offset l.
  repeat split; try lia; try assumption; apply slice_bound_inside; lia.
Qed.

Lemma processing_order_sorted (stream : Stream) (c : ascii) :
  StronglySorted (key_le npts) (processing_order fnmatch stream c).
Proof.
  unfold processing_order.
  destruct (Z.ltb_spec 1 (Z.of_nat (List.length (select fnmatch stream c)))) as [H|H].
  - apply sorted_StronglySorted.
  - destruct (select fnmatch stream c) as [|a [|b r]].
    + constructor.
    + constructor; constructor.
    + simpl in H. lia.
Qed.

(** C3. The traces of a component are written in ascending order of
    their sample count, each of them once.  When two traces of different
    lengths match a component, the shorter is written first and the longer
    second, so at every position the longer trace is copied to, the row holds
    the sample of the longer trace (in the output: that sample minus the row
    mean), whatever the shorter trace had written there. *)
Theorem longer_trace_wins (stream : Stream) (component_order : list ascii)
    (log : list Warning) (c_idx : nat) (c : ascii) (shorter longer : Trace) :
  well_formed stream ->
  component_order !! c_idx = Some c ->
  select fnmatch stream c = [shorter; longer] \/
  select fnmatch stream c = [longer; shorter] ->
  (List.length (data shorter) < List.length (data longer))%nat ->
  (forall c', StronglySorted (key_le npts) (processing_order fnmatch stream c') /\
              Permutation (processing_order fnmatch stream c') (select fnmatch stream c')) /\
  processing_order fnmatch stream c = [shorter; longer] /\
  exists start array completeness log' row,
    stream_to_array fnmatch fl stream component_order log
    = (Ok (start, array, completeness), log') /\
    array !! c_idx = Some row /\
    forall k, (k < Z.to_nat (copied_of fl stream longer))%nat ->
      exists x,
        data longer !! k = Some x /\
        filled_row fnmatch fl stream c !! (Z.to_nat (offset_of fl stream longer) + k)%nat
        = Some x /\
        row !! (Z.to_nat (offset_of fl stream longer) + k)%nat
        = Some (x - Np.mean (filled_row fnmatch fl stream c)).
Proof.
  intros Hwf Hc Hsel Hlen.
  assert (Hco : component_order <> []) by (intros ->; discriminate Hc).
  assert (Hkeys : (npts shorter < npts longer)%Z) by (unfold npts; lia).
  assert (Horder : processing_order fnmatch stream c = [shorter; longer]).
  { unfold processing_order.
    destruct (sorted_pair npts shorter longer Hkeys) as [E1 E2].
    destruct Hsel as [-> | ->]; simpl List.length;
      change (1 <? Z.of_nat 2)%Z with true; cbv iota; assumption. }
  assert (Hin : In longer stream).
  { apply (select_In fnmatch stream c). destruct Hsel as [-> | ->]; simpl; auto. }
  assert (Hin' : In shorter stream).
  { apply (select_In fnmatch stream c). destruct Hsel as [-> | ->]; simpl; auto. }
  split; [|split; [exact Horder|]].
  { intros c'. split; [apply processing_order_sorted|apply processing_order_Permutation]. }
  do 5 eexists.
  split; [apply (stream_to_array_run fnmatch fl stream component_order log Hwf Hco)|].
  split.
  { apply sub_row_mean_lookup. rewrite list_lookup_fmap, Hc. reflexivity. }
  intros k Hk.
  destruct (copied_in_range fl stream Hwf longer Hin) as (H1 & H2 & H3).
  destruct (copied_in_range fl stream Hwf shorter Hin') as (H1' & H2' & H3').
  pose proof (offset_in_range fl stream Hwf longer Hin) as Hoff.
  pose proof (offset_in_range fl stream Hwf shorter Hin') as Hoff'.
  pose proof (copied_samples_length fl stream longer Hwf Hin) as Hcs.
  pose proof (copied_samples_length fl stream shorter Hwf Hin') as Hcs'.
  destruct (lookup_lt_is_Some_2 (data longer) k) as [x Hx]; [lia|].
  exists x. split; [exact Hx|].
  assert (Hrow : filled_row fnmatch fl stream c
                   !! (Z.to_nat (offset_of fl stream longer) + k)%nat = Some x).
  { unfold filled_row. rewrite Horder. cbn [fold_left].
    rewrite overwrite_lookup_inside.
    - unfold copied_samples. rewrite lookup_take_lt by exact Hk. exact Hx.
    - rewrite overwrite_length; rewrite length_replicate; [lia|].
      rewrite Hcs'. lia.
    - rewrite Hcs. exact Hk. }
  split; [exact Hrow|].
  rewrite list_lookup_fmap, Hrow. reflexivity.
Qed.

Lemma stream_to_array_ok_nonempty (stream : Stream) (component_order : list ascii)
    log r log' :
  stream_to_array fnmatch fl stream component_order log = (Ok r, log') ->
  component_order <> [].
Proof.
  unfold stream_to_array. intros H.
  apply bind_inv in H as (t0 & l0 & _ & H).
  apply bind_inv in H as (t1 & l1 & _ & H).
  apply bind_inv in H as (tr & l2 & _ & H).
  apply bind_inv in H as (z & l3 & _ & H).
  apply bind_inv in H as (filled & l4 & _ & H).
  apply bind_inv in H as (cc & l5 & Hdiv & _).
  intros ->. discriminate Hdiv.
Qed.

(** C4. In every array the assembler returns each row has mean zero: the
    array is a filled array from each row of which the mean of the whole
    row was subtracted; on a well-formed stream the filled rows are the rows
    that start all zero and receive the copies, so the zeros of the gaps
    count in the mean. *)
Theorem rows_have_zero_mean (stream : Stream) (component_order : list ascii)
    log start array completeness log' :
  stream_to_array fnmatch fl stream component_order log
  = (Ok (start, array, completeness), log') ->
  Forall (fun row => Np.mean row == 0) array /\
  (exists filled,
     array = map (fun row =>
                    map (fun x => x - Np.sum row / inject_Z (Z.of_nat (List.length row)))
                      row) filled) /\
  (well_formed stream ->
   array = map (fun c =>
                  map (fun x => x - Np.mean (filled_row fnmatch fl stream c))
                    (filled_row fnmatch fl stream c)) component_order).
Proof.
  intros H. split; [|split].
  - destruct (stream_to_array_inv _ _ _ _ _ _ _ H) as (filled & ->).
    unfold Np.sub_row_mean. rewrite List.Forall_forall. intros row Hrow.
    apply in_map_iff in Hrow as (r & <- & _). apply mean_removed.
  - destruct (stream_to_array_inv _ _ _ _ _ _ _ H) as (filled & ->).
    exists filled. reflexivity.
  - intros Hwf. pose proof (stream_to_array_ok_nonempty _ _ _ _ _ H) as Hco.
    rewrite (stream_to_array_run fnmatch fl stream component_order log Hwf Hco) in H.
    inversion H. unfold Np.sub_row_mean. now rewrite map_map.
Qed.

Lemma flat_map_nothing {X : Type} (xs : list X) :
  flat_map (fun _ : X => @nil Warning) xs = [].
Proof. induction xs; simpl; auto. Qed.

Lemma flat_map_enumerate {X : Type} (g : X -> list Warning) (xs : list X) (i : nat) :
  flat_map (fun ix => g (snd ix)) (Py.enumerate_from i xs) = flat_map g xs.
Proof.
  revert i. induction xs as [|x r IH]; intros i; simpl; [reflexivity|].
  now rewrite IH.
Qed.

Lemma emits_same {X : Type} (m : M X) ws ws' : ws = ws' -> emits m ws -> emits m ws'.
Proof. now intros ->. Qed.

Lemma write_trace_emits t0 rate samples c_idx st trace :
  emits (write_trace fl t0 rate samples c_idx st trace) [].
Proof.
  unfold write_trace. apply (emits_bind _ _ [] []); [apply emits_lift|].
  intros a. apply emits_ret.
Qed.

(** Whatever the stream, the body of the loop over the components logs
    the warnings of its component and nothing else. *)
Lemma process_component_emits (stream : Stream) t0 rate samples st ic :
  emits (process_component fnmatch fl stream t0 rate samples st ic)
    (component_warnings fnmatch stream (snd ic)).
Proof.
  unfold process_component.
  apply (emits_same _ (component_warnings fnmatch stream (snd ic) ++ ([] ++ ([] ++ [])))).
  { simpl. apply app_nil_r. }
  apply emits_bind.
  - intros log a log' H. rewrite order_run in H. now inversion H.
  - intros c_stream. apply emits_bind.
    + apply (emits_same _ (flat_map (fun _ : Trace => []) c_stream));
        [apply flat_map_nothing|].
      apply emits_for_each. intros s x. apply write_trace_emits.
    + intros filled. apply emits_bind; [apply emits_lift|].
      intros fraction. apply emits_ret.
Qed.

Lemma stream_to_array_emits (stream : Stream) (component_order : list ascii) :
  emits (stream_to_array fnmatch fl stream component_order)
    (flat_map (component_warnings fnmatch stream) component_order).
Proof.
  unfold stream_to_array.
  apply (emits_bind _ _ [] _); [apply emits_lift|]. intros t0.
  apply (emits_bind _ _ [] _); [apply emits_lift|]. intros t1.
  apply (emits_bind _ _ [] _); [apply emits_lift|]. intros tr.
  apply (emits_bind _ _ [] _); [apply emits_lift|]. intros z.
  apply (emits_same _ (flat_map (component_warnings fnmatch stream) component_order
                       ++ ([] ++ []))).
  { simpl. apply app_nil_r. }
  apply emits_bind.
  - apply (emits_same _ (flat_map (fun ic => component_warnings fnmatch stream (snd ic))
                           (Py.enumerate_from 0 component_order)));
      [apply flat_map_enumerate|].
    apply emits_for_each. intros s x. apply process_component_emits.
  - intros filled. apply emits_bind; [apply emits_lift|].
    intros cc. apply emits_ret.
Qed.

(** C8, as the code has it.  A run of the assembler that returns has
    logged, for each requested component in turn, exactly one warning when
    more than one trace matches the component and none otherwise; the warning
    names the identifier of the first matching trace together with the start
    time of the first trace of the stream. *)
Theorem warnings_emitted (stream : Stream) (component_order : list ascii) log r log' :
  stream_to_array fnmatch fl stream component_order log = (Ok r, log') ->
  log' = log ++ flat_map (component_warnings fnmatch stream) component_order /\
  forall c,
    match select fnmatch stream c with
    | first_match :: _ :: _ =>
        exists first_trace rest,
          stream = first_trace :: rest /\
          component_warnings fnmatch stream c
          = [mkWarning (trace_id first_match) (starttime first_trace)]
    | _ => component_warnings fnmatch stream c = []
    end.
Proof.
  intros H. split; [exact (stream_to_array_emits stream component_order _ _ _ H)|].
  intros c. unfold component_warnings.
  destruct (select fnmatch stream c) as [|a [|b rest]] eqn:E; try reflexivity.
  destruct stream as [|first_trace others]; [discriminate E|].
  exists first_trace, others. split; reflexivity.
Qed.

End AssemblerClaims.

(** ** The best-effort rotator *)

Section RotatorClaims.

Variable Inventory : Type.
Variable rotate : Stream -> Inventory -> Stream * option exn.

(** The five handlers of lines 79-89 catch exactly the exceptions that
    derive from [Exception]. *)
Lemma handlers_catch (e : exn) :
  existsb (isinstance e)
    [ValueError; NotImplementedError; AttributeError; ObsPyException; Exception]
  = derives_from_Exception e.
Proof. destruct e; reflexivity. Qed.


(** What the stream is when the rotation has run to its end. *)
Variable rotated : Stream -> Inventory -> Stream.


End RotatorClaims.

Section RotatorExamples.

Import Examples.

(** With metadata for every channel the rotation runs to its end. *)
Example rotation_complete :
  rotate_stream_to_ZNE Inventory rotate_atomic stream_12 ["BH1"; "BH2"]
  = (rotate_all stream_12, None).
Proof. reflexivity. Qed.

(** Without metadata for a channel the stream is unmodified and nothing
    reaches the caller. *)
Example rotation_fails :
  rotate_stream_to_ZNE Inventory rotate_atomic stream_12 ["BH1"] = (stream_12, None).
Proof. reflexivity. Qed.

(** An interrupt is not an [Exception] and is not caught. *)
Example interrupt_propagates :
  rotate_stream_to_ZNE Inventory rotate_interrupted stream_12 []
  = (stream_12, Some KeyboardInterrupt).
Proof. reflexivity. Qed.


End RotatorExamples.

(** ** The array assembler on concrete streams *)

Section AssemblerExamples.

Import Examples.

Local Open Scope Q_scope.

Lemma stream_ZN_well_formed : well_formed stream_ZN.
Proof.
  split; [discriminate|].
  split; [repeat constructor; simpl; lra|simpl; lra].
Defined.

Lemma stream_dup_well_formed : well_formed stream_dup.
Proof.
  split; [discriminate|].
  split; [repeat constructor; simpl; lra|simpl; lra].
Defined.

Lemma order_ZN_not_empty : ["Z"; "N"]%char <> [].
Proof. discriminate. Defined.

(** Z is complete, N has two of four samples: completeness 3/4; the gaps
    of N are zero before the mean 3 is removed. *)
Example assemble_ZN :
  stream_to_array glob exact_arith stream_ZN ["Z"; "N"]%char []
  = (Ok (0, [[-6 # 4; -2 # 4; 2 # 4; 6 # 4]; [-12 # 4; 8 # 4; 16 # 4; -12 # 4]], 6 # 8),
     []).
Proof. reflexivity. Qed.

(** Three aligned traces of 100 samples each would give shape (3, 100);
    here, in small: one trace of four samples per component. *)
Example assemble_aligned :
  stream_to_array glob exact_arith
    [mkTrace "XX.STA..BHZ" "BHZ" 5 8 1 [1; 2; 3; 4];
     mkTrace "XX.STA..BHN" "BHN" 5 8 1 [4; 3; 2; 1];
     mkTrace "XX.STA..BHE" "BHE" 5 8 1 [0; 2; 0; 2]]
    ["Z"; "N"; "E"]%char []
  = (Ok (5,
         [[-6 # 4; -2 # 4; 2 # 4; 6 # 4]; [6 # 4; 2 # 4; -2 # 4; -6 # 4];
          [-4 # 4; 4 # 4; -4 # 4; 4 # 4]],
         3 # 3),
     []).
Proof. reflexivity. Qed.

(** The long trace comes first in the stream and is written last. *)
Example assemble_dup_rows :
  filled_row glob exact_arith stream_dup "Z" = [7; 10; 20; 30; 40] /\
  processing_order glob stream_dup "Z" = [trace_short; trace_long].
Proof. split; reflexivity. Qed.

(** Rounding decides the column count: for thirty samples at 100 Hz the
    binary64 product 0.29 * 100.0 is just below 29, so the array has 29
    columns and the last sample of the trace is not copied; without
    rounding there are 30. *)
Example binary64_rounding_drops_a_column :
  sample_count binary64_arith [trace_100Hz] = 29%Z /\
  copied_of binary64_arith [trace_100Hz] trace_100Hz = 29%Z /\
  sample_count exact_arith [trace_100Hz] = 30%Z.
Proof. repeat split; vm_compute; reflexivity. Qed.

Example assemble_empty_stream :
  stream_to_array glob exact_arith [] ["Z"]%char [] = (Raise ValueError, []).
Proof. reflexivity. Qed.

Example assemble_empty_order :
  stream_to_array glob exact_arith stream_ZN [] [] = (Raise ZeroDivisionError, []).
Proof. reflexivity. Qed.

Lemma completeness_is_average_witness :
  exists start array completeness log',
    stream_to_array glob exact_arith stream_ZN ["Z"; "N"]%char []
    = (Ok (start, array, completeness), log') /\
    0 <= completeness <= 1.
Proof.
  destruct (completeness_is_average glob exact_arith stream_ZN ["Z"; "N"]%char []
              stream_ZN_well_formed order_ZN_not_empty)
    as (start & array & completeness & log' & Hrun & _ & Hrange & _).
  exists start, array, completeness, log'. split; assumption.
Defined.

Lemma array_shape_and_copies_witness :
  exists array completeness log',
    stream_to_array glob exact_arith stream_ZN ["Z"; "N"]%char []
    = (Ok (earliest_start stream_ZN, array, completeness), log') /\
    List.length array = 2%nat.
Proof.
  destruct (array_shape_and_copies glob exact_arith stream_ZN ["Z"; "N"]%char []
              stream_ZN_well_formed order_ZN_not_empty)
    as (_ & (array & completeness & log' & Hrun & Hrows & _) & _).
  exists array, completeness, log'. split; assumption.
Defined.

Lemma longer_trace_wins_witness :
  processing_order glob stream_dup "Z" = [trace_short; trace_long].
Proof.
  refine (proj1 (proj2 (longer_trace_wins glob exact_arith stream_dup ["Z"]%char [] 0 "Z"
                          trace_short trace_long stream_dup_well_formed _ _ _))).
  - reflexivity.
  - right. reflexivity.
  - simpl. lia.
Defined.

Lemma rows_have_zero_mean_witness :
  Forall (fun row => Np.mean row == 0)
    [[-6 # 4; -2 # 4; 2 # 4; 6 # 4]; [-12 # 4; 8 # 4; 16 # 4; -12 # 4]].
Proof.
  refine (proj1 (rows_have_zero_mean glob exact_arith stream_ZN ["Z"; "N"]%char [] 0 _ (6 # 8) [] _)).
  reflexivity.
Defined.

Lemma warnings_emitted_witness :
  [mkWarning "XX.STA..HHZ" 1]
  = [] ++ flat_map (component_warnings glob stream_dup) ["Z"; "N"]%char.
Proof.
  refine (proj1 (warnings_emitted glob exact_arith stream_dup ["Z"; "N"]%char []
                   (0, [[-72 # 5; -57 # 5; -7 # 5; 43 # 5; 93 # 5];
                        [0 # 5; 0 # 5; 0 # 5; 0 # 5; 0 # 5]], 5 # 10)
                   [mkWarning "XX.STA..HHZ" 1] _)).
  reflexivity.
Defined.

Lemma writes_in_bounds_witness :
  (0 <= offset_of exact_arith stream_ZN trace_N <= sample_count exact_arith stream_ZN - 1)%Z.
Proof.
  refine (proj1 (proj2 (writes_in_bounds exact_arith stream_ZN trace_N stream_ZN_well_formed _))).
  right. left. reflexivity.
Defined.

(** The warning of the duplicated component carries the start of the first
    trace of the stream, second 1, while the earliest start is second 0: the
    diagnostics are not the ones the specification words. *)
Lemma warning_names_first_trace_start :
  ~ spec_warnings_hold glob exact_arith stream_dup ["Z"; "N"]%char.
Proof.
  intros H.
  specialize (H []
                (0, [[-72 # 5; -57 # 5; -7 # 5; 43 # 5; 93 # 5];
                     [0 # 5; 0 # 5; 0 # 5; 0 # 5; 0 # 5]], 5 # 10)
                [mkWarning "XX.STA..HHZ" 1] eq_refl).
  discriminate H.
Qed.

End AssemblerExamples.

(** ** More on the identifier normalizer *)

Section NormalizerFormat.

Import PyStr.

Lemma string_app_assoc (a b c : string) : ((a ++ b) ++ c)%string = (a ++ (b ++ c))%string.
Proof. induction a as [|x a IH]; simpl; [reflexivity|]. now rewrite IH. Qed.

Lemma normalizer_result_parts (s : string) :
  List.length (split dot (waveform_id_to_network_station_location s)) = 3%nat \/
  waveform_id_to_network_station_location s = s /\ List.length (split dot s) <> 4%nat.
Proof.
  destruct (normalizer_cases s) as [[H4 E]|[Hn E]].
  - left. rewrite (normalizer_four_parts_result s H4), length_firstn, H4. reflexivity.
  - right. now split.
Qed.

(** The docstring's format: on [Network.Station.Location.Channel], four
    fields without a dot (any of them may be empty), the result is
    [Network.Station.Location]. *)
Theorem normalizer_on_format (network station location chan : string) :
  occurs dot network = false -> occurs dot station = false ->
  occurs dot location = false -> occurs dot chan = false ->
  waveform_id_to_network_station_location
    (join dot [network; station; location; chan])
  = join dot [network; station; location].
Proof.
  intros Hn Hs Hl Hc. unfold waveform_id_to_network_station_location.
  rewrite split_join; [reflexivity|discriminate|].
  repeat constructor; assumption.
Qed.

Lemma normalizer_on_format_witness :
  waveform_id_to_network_station_location (join dot ["GE"; "APE"; ""; "BHZ"])
  = join dot ["GE"; "APE"; ""].
Proof. apply normalizer_on_format; reflexivity. Defined.

(** On a four-part input only the last part and the dot in front of it are
    dropped: the input is the result, a dot, and a last part without dots. *)
Theorem normalizer_drops_last_part (s : string) :
  List.length (split dot s) = 4%nat ->
  exists chan,
    occurs dot chan = false /\
    s = (waveform_id_to_network_station_location s ++ String dot chan)%string.
Proof.
  intros H4.
  pose proof (split_pieces_clean dot s) as Hclean.
  pose proof (join_split dot s) as Hjoin.
  unfold waveform_id_to_network_station_location. rewrite H4. cbn [Nat.eqb negb].
  destruct (split dot s) as [|a [|b [|c [|d [|e r]]]]]; try discriminate H4.
  exists d. split.
  - inversion Hclean as [|? ? _ H1]; subst. inversion H1 as [|? ? _ H2]; subst.
    inversion H2 as [|? ? _ H3]; subst. now inversion H3.
  - rewrite <- Hjoin. cbn [join but_last].
    rewrite string_app_assoc. cbn [String.append]. rewrite string_app_assoc.
    reflexivity.
Qed.

Lemma normalizer_drops_last_part_witness :
  exists chan,
    occurs dot chan = false /\
    "GE.APE..BHZ"
    = (waveform_id_to_network_station_location "GE.APE..BHZ" ++ String dot chan)%string.
Proof. apply normalizer_drops_last_part. reflexivity. Defined.

(** The result never has the four-part form: a normalized identifier is
    not taken for a full waveform identifier again. *)
Theorem normalizer_result_not_four_parts (s : string) :
  List.length (split dot (waveform_id_to_network_station_location s)) <> 4%nat.
Proof.
  destruct (normalizer_result_parts s) as [H3|[E Hn]].
  - rewrite H3. discriminate.
  - now rewrite E.
Qed.

End NormalizerFormat.

(** ** More on the spike detector *)

Section SpikeDetectorMore.

Local Open Scope Q_scope.

Context (fl : FloatOps) {Hfl : SoundArith fl}.

(** The exceptions of the detector on an array with at least one row:
    [ValueError] exactly when the quantile is outside [0, 1], whatever the
    data and the factor; [IndexError] exactly when the quantile is in range
    and a row has no sample; and no other exception. *)
Theorem trace_has_spikes_raises (data : list (list Q)) (factor quantile : Q) :
  data <> [] ->
  (trace_has_spikes fl data factor quantile = Raise ValueError
   <-> ~ (0 <= quantile /\ quantile <= 1)) /\
  (trace_has_spikes fl data factor quantile = Raise IndexError
   <-> (0 <= quantile /\ quantile <= 1) /\ exists row, In row data /\ row = []) /\
  (forall e, trace_has_spikes fl data factor quantile = Raise e ->
     e = ValueError \/ e = IndexError).
Proof.
  intros _. rewrite trace_has_spikes_rows.
  assert (Hempty : existsb Np.no_samples data = true
                   <-> exists row, In row data /\ row = []).
  { rewrite existsb_exists. split; intros (row & Hin & H); exists row; split; trivial.
    - now destruct row.
    - now subst. }
  destruct (Qle_bool 0 quantile && Qle_bool quantile 1) eqn:E; cbn [negb].
  - apply in_range_iff in E.
    destruct (existsb Np.no_samples data) eqn:En.
    + split; [split; [discriminate|intros H; now destruct H]|].
      split; [|intros e H; inversion H; now right].
      split; [intros _; split; [exact E|now apply Hempty]|reflexivity].
    + split; [split; [discriminate|intros H; now destruct H]|].
      split; [|discriminate].
      split; [discriminate|]. intros [_ H]. apply Hempty in H. discriminate H.
  - assert (Hout : ~ (0 <= quantile /\ quantile <= 1)).
    { intros H. apply in_range_iff in H. congruence. }
    split; [split; [intros _; exact Hout|reflexivity]|].
    split; [|intros e H; inversion H; now left].
    split; [discriminate|]. intros [H _]. now destruct Hout.
Qed.

Lemma threshold_nonneg (row : list Q) (factor quantile : Q) :
  0 <= factor -> 0 <= fl_mul fl (fl_quantile fl (map Qabs row) quantile) factor.
Proof.
  intros Hf. apply mul_nonneg; [|exact Hf].
  apply quantile_nonneg. rewrite List.Forall_forall. intros x Hx.
  apply in_map_iff in Hx as (y & <- & _). apply Qabs_nonneg.
Qed.

(** The comparison is on the signed value: with a factor that is not
    negative, an array with samples but without a positive one never has a
    spike, however large its negative excursions are. *)
Theorem negative_excursions_are_no_spikes (data : list (list Q)) (factor quantile : Q) :
  has_samples data ->
  0 <= factor -> 0 <= quantile -> quantile <= 1 ->
  (forall row x, In row data -> In x row -> x <= 0) ->
  trace_has_spikes fl data factor quantile = Ok false.
Proof.
  intros [_ Hrows] Hf Hlo Hhi Hneg. rewrite trace_has_spikes_rows.
  rewrite (proj2 (in_range_iff quantile) (conj Hlo Hhi)).
  rewrite (proj2 (no_samples_iff data) Hrows). cbn [negb]. f_equal.
  destruct (Np.any _) eqn:E; [|reflexivity].
  apply (any_rows (fun row x =>
           Np.gtb x (fl_mul fl (fl_quantile fl (map Qabs row) quantile) factor)))
    in E as (row & x & Hrow & Hx & Hgt).
  apply gtb_lt in Hgt. pose proof (threshold_nonneg row factor quantile Hf).
  specialize (Hneg row x Hrow Hx). lra.
Qed.

(** A larger factor never flags more: data flagged with a factor is
    flagged with every smaller factor that is not negative. *)
Theorem spikes_antitone_in_factor (data : list (list Q)) (small large quantile : Q) :
  0 <= small -> small <= large ->
  trace_has_spikes fl data large quantile = Ok true ->
  trace_has_spikes fl data small quantile = Ok true.
Proof.
  intros H0 Hle. rewrite !trace_has_spikes_rows.
  destruct (negb (Qle_bool 0 quantile && Qle_bool quantile 1)); [discriminate|].
  destruct (existsb Np.no_samples data); [discriminate|].
  intros H. inversion H as [E]. f_equal. rewrite E.
  apply (any_rows (fun row x =>
           Np.gtb x (fl_mul fl (fl_quantile fl (map Qabs row) quantile) large)))
    in E as (row & x & Hrow & Hx & Hgt).
  apply (any_rows (fun row x =>
           Np.gtb x (fl_mul fl (fl_quantile fl (map Qabs row) quantile) small))).
  exists row, x. split; [exact Hrow|]. split; [exact Hx|].
  apply gtb_lt in Hgt. apply gtb_lt.
  assert (Hq : 0 <= fl_quantile fl (map Qabs row) quantile).
  { apply quantile_nonneg. rewrite List.Forall_forall. intros y Hy.
    apply in_map_iff in Hy as (z & <- & _). apply Qabs_nonneg. }
  pose proof (mul_mono_r (fl_quantile fl (map Qabs row) quantile) small large Hq Hle).
  lra.
Qed.

(** The rows are judged one by one: stacking two arrays with samples
    gives a spike exactly when one of them has one. *)
Theorem spikes_of_stacked_rows (upper lower : list (list Q)) (factor quantile : Q) :
  has_samples upper -> has_samples lower ->
  0 <= quantile -> quantile <= 1 ->
  exists b1 b2 : bool,
    trace_has_spikes fl upper factor quantile = Ok b1 /\
    trace_has_spikes fl lower factor quantile = Ok b2 /\
    trace_has_spikes fl (upper ++ lower) factor quantile = Ok (b1 || b2).
Proof.
  intros [_ Hu] [_ Hl] Hlo Hhi. rewrite !trace_has_spikes_rows.
  rewrite (proj2 (in_range_iff quantile) (conj Hlo Hhi)). cbn [negb].
  rewrite existsb_app.
  rewrite (proj2 (no_samples_iff upper) Hu), (proj2 (no_samples_iff lower) Hl).
  cbn [orb].
  do 2 eexists. split; [reflexivity|]. split; [reflexivity|].
  f_equal. unfold Np.any. now rewrite map_app, existsb_app.
Qed.

End SpikeDetectorMore.

Section SpikeDetectorMoreExamples.

Local Open Scope Q_scope.

Lemma trace_has_spikes_raises_witness :
  trace_has_spikes exact_arith [[]; [1]] 25 (1 # 2) = Raise IndexError
  <-> (0 <= 1 # 2 /\ 1 # 2 <= 1) /\ exists row, In row [[]; [1]] /\ row = [].
Proof.
  refine (proj1 (proj2 (trace_has_spikes_raises exact_arith [[]; [1]] 25 (1 # 2) _))).
  discriminate.
Defined.

Lemma negative_excursions_are_no_spikes_witness :
  trace_has_spikes exact_arith [[-1; -2; -3; -1000]; [0; -1; 0; -1]] 25 (1 # 2) = Ok false.
Proof.
  apply (negative_excursions_are_no_spikes exact_arith).
  - split; [discriminate|]. repeat constructor; discriminate.
  - discriminate.
  - discriminate.
  - discriminate.
  - intros row x [<-|[<-|[]]] Hx; simpl in Hx;
      repeat (destruct Hx as [<-|Hx]; [discriminate|]); destruct Hx.
Defined.

Lemma spikes_antitone_in_factor_witness :
  trace_has_spikes exact_arith [[1; -2; 3; 100]; [1; 1; 1; 1]] 10 (1 # 2) = Ok true.
Proof.
  apply (spikes_antitone_in_factor exact_arith _ 10 25 (1 # 2)).
  - discriminate.
  - discriminate.
  - reflexivity.
Defined.

Lemma spikes_of_stacked_rows_witness :
  exists b1 b2 : bool,
    trace_has_spikes exact_arith [[1; -2; 3; 100]] 25 (1 # 2) = Ok b1 /\
    trace_has_spikes exact_arith [[1; 1; 1; 1]] 25 (1 # 2) = Ok b2 /\
    trace_has_spikes exact_arith ([[1; -2; 3; 100]] ++ [[1; 1; 1; 1]]) 25 (1 # 2)
    = Ok (b1 || b2).
Proof.
  apply (spikes_of_stacked_rows exact_arith);
    try discriminate; (split; [discriminate|repeat constructor; discriminate]).
Defined.

End SpikeDetectorMoreExamples.

(** ** More on the array assembler *)

Section AssemblerMore.

Local Open Scope Q_scope.

Variable fnmatch : string -> string -> bool.
Context (fl : FloatOps) {Hfl : SoundArith fl}.

(** *** When the assembler raises *)

(** An empty stream raises [ValueError] (the [min] of line 36) before
    anything is logged; a run that returns had a stream and a component
    order that are not empty. *)
Theorem assembler_needs_input :
  (forall component_order log,
     stream_to_array fnmatch fl [] component_order log = (Raise ValueError, log)) /\
  (forall stream component_order log r log',
     stream_to_array fnmatch fl stream component_order log = (Ok r, log') ->
     stream <> [] /\ component_order <> []).
Proof.
  split; [reflexivity|].
  intros stream component_order log r log' H. split.
  - intros ->. discriminate H.
  - exact (stream_to_array_ok_nonempty fnmatch fl _ _ _ _ _ H).
Qed.

(** On a well-formed stream an empty component order raises
    [ZeroDivisionError] (the division of line 64), with nothing logged. *)
Theorem empty_order_raises (stream : Stream) (log : list Warning) :
  well_formed stream ->
  stream_to_array fnmatch fl stream [] log = (Raise ZeroDivisionError, log).
Proof.
  intros Hwf. unfold stream_to_array.
  rewrite (bind_lift_ok _ _ _ _ (min_of_starts stream Hwf)).
  rewrite (bind_lift_ok _ _ _ _ (max_of_ends stream Hwf)).
  assert (Hfirst : exists first_trace rest, stream = first_trace :: rest).
  { destruct stream as [|t r]; [now destruct Hwf|eauto]. }
  destruct Hfirst as (first_trace & rest & Hs).
  assert (E1 : Py.first stream = Ok first_trace) by now rewrite Hs.
  rewrite (bind_lift_ok _ _ _ _ E1).
  assert (Hrate : sampling_rate first_trace = stream_rate stream) by now rewrite Hs.
  rewrite Hrate.
  change (Py.int (fl_mul fl (fl_time_sub fl (latest_end stream) (earliest_start stream))
                    (stream_rate stream)) + 1)%Z
    with (sample_count fl stream).
  unfold Np.zeros. pose proof (sample_count_pos fl stream Hwf).
  destruct (Z.ltb_spec (sample_count fl stream) 0); [lia|].
  reflexivity.
Qed.

(** *** The log *)

Lemma appends_ret {A : Type} (a : A) : appends_only (ret a).
Proof. intros log r log' H. inversion H. exists []. now rewrite app_nil_r. Qed.

Lemma appends_lift {A : Type} (x : result A) : appends_only (lift x).
Proof. intros log r log' H. inversion H. exists []. now rewrite app_nil_r. Qed.

Lemma appends_raise {A : Type} (e : exn) : appends_only (@raise A e).
Proof. intros log r log' H. inversion H. exists []. now rewrite app_nil_r. Qed.

Lemma appends_warning (w : Warning) : appends_only (logger_warning w).
Proof. intros log r log' H. inversion H. now exists [w]. Qed.

Lemma appends_bind {A B : Type} (m : M A) (k : A -> M B) :
  appends_only m -> (forall a, appends_only (k a)) -> appends_only (bind m k).
Proof.
  intros Hm Hk log r log2 H. unfold bind in H.
  destruct (m log) as [[a|e] log1] eqn:E.
  - destruct (Hm _ _ _ E) as (ws1 & ->). destruct (Hk _ _ _ _ H) as (ws2 & ->).
    exists (ws1 ++ ws2). now rewrite app_assoc.
  - inversion H; subst. exact (Hm _ _ _ E).
Qed.

Lemma appends_for_each {S X : Type} (body : S -> X -> M S) (xs : list X) :
  (forall s x, appends_only (body s x)) ->
  forall s, appends_only (for_each body xs s).
Proof.
  intros Hbody. induction xs as [|x r IH]; intros s; simpl.
  - apply appends_ret.
  - apply appends_bind; [apply Hbody|]. intros s'. apply IH.
Qed.

Lemma appends_process_component (stream : Stream) t0 rate samples st ic :
  appends_only (process_component fnmatch fl stream t0 rate samples st ic).
Proof.
  unfold process_component. apply appends_bind.
  - destruct (1 <? _)%Z; [|apply appends_ret].
    destruct (select fnmatch stream (snd ic)) as [|a l]; [apply appends_raise|].
    destruct stream as [|f r]; [apply appends_raise|].
    apply appends_bind; [apply appends_warning|]. intros _. apply appends_ret.
  - intros c_stream. apply appends_bind.
    + apply appends_for_each. intros s x. unfold write_trace.
      apply appends_bind; [apply appends_lift|]. intros a. apply appends_ret.
    + intros filled. apply appends_bind; [apply appends_lift|].
      intros fraction. apply appends_ret.
Qed.

(** Whether the assembler returns or raises, on any stream at all, the
    warnings logged before the call are still there, in front of the new
    ones. *)
Theorem assembler_only_appends (stream : Stream) (component_order : list ascii)
    (log : list Warning) :
  exists ws, snd (stream_to_array fnmatch fl stream component_order log) = log ++ ws.
Proof.
  assert (H : appends_only (stream_to_array fnmatch fl stream component_order)).
  { unfold stream_to_array.
    apply appends_bind; [apply appends_lift|]. intros t0.
    apply appends_bind; [apply appends_lift|]. intros t1.
    apply appends_bind; [apply appends_lift|]. intros tr.
    apply appends_bind; [apply appends_lift|]. intros z.
    apply appends_bind.
    - apply appends_for_each. intros s x. apply appends_process_component.
    - intros filled. apply appends_bind; [apply appends_lift|].
      intros cc. apply appends_ret. }
  destruct (stream_to_array fnmatch fl stream component_order log) as [r log'] eqn:E.
  exact (H _ _ _ E).
Qed.

(** When no requested component matches more than one trace, a run that
    returns has logged nothing. *)
Theorem no_duplicates_no_warning (stream : Stream) (component_order : list ascii)
    log r log' :
  (forall c, In c component_order ->
     (List.length (select fnmatch stream c) <= 1)%nat) ->
  stream_to_array fnmatch fl stream component_order log = (Ok r, log') ->
  log' = log.
Proof.
  intros Hone H.
  rewrite (stream_to_array_emits fnmatch fl stream component_order _ _ _ H).
  assert (E : flat_map (component_warnings fnmatch stream) component_order = []).
  { clear H. induction component_order as [|c rest IH]; [reflexivity|].
    cbn [flat_map]. rewrite IH.
    - rewrite app_nil_r. unfold component_warnings.
      specialize (Hone c (or_introl eq_refl)).
      destruct (select fnmatch stream c) as [|a [|b l]]; try reflexivity.
      simpl in Hone. lia.
    - intros c' Hc'. apply Hone. now right. }
  rewrite E. apply app_nil_r.
Qed.

End AssemblerMore.

(** ** More on the array assembler: what the rows hold *)

Section AssemblerRows.

Local Open Scope Q_scope.

Variable fnmatch : string -> string -> bool.
Context (fl : FloatOps) {Hfl : SoundArith fl}.

Lemma writes_keep_length (stream : Stream) (traces : list Trace) :
  well_formed stream ->
  (forall trace, In trace traces -> In trace stream) ->
  forall row : list Q,
  List.length row = Z.to_nat (sample_count fl stream) ->
  List.length
    (fold_left
       (fun row trace =>
          overwrite row (Z.to_nat (offset_of fl stream trace)) (copied_samples fl stream trace))
       traces row)
  = Z.to_nat (sample_count fl stream).
Proof.
  intros Hwf. induction traces as [|trace rest IH]; intros Hsub row Hrow.
  - exact Hrow.
  - cbn [fold_left].
    assert (Hin : In trace stream) by (apply Hsub; now left).
    destruct (copied_in_range fl stream Hwf trace Hin) as (H1 & H2 & H3).
    pose proof (offset_in_range fl stream Hwf trace Hin) as Hoff.
    apply IH; [intros t Ht; apply Hsub; now right|].
    rewrite overwrite_length; [exact Hrow|].
    rewrite (copied_samples_length fl stream trace Hwf Hin). lia.
Qed.

(** Writes that do not cover a position leave it as it was. *)
Lemma writes_elsewhere (stream : Stream) (traces : list Trace) (p : nat) :
  well_formed stream ->
  (forall trace, In trace traces -> In trace stream) ->
  (forall trace, In trace traces ->
     (Z.of_nat p < offset_of fl stream trace \/
      offset_of fl stream trace + copied_of fl stream trace <= Z.of_nat p)%Z) ->
  forall row : list Q,
  List.length row = Z.to_nat (sample_count fl stream) ->
  fold_left
    (fun row trace =>
       overwrite row (Z.to_nat (offset_of fl stream trace)) (copied_samples fl stream trace))
    traces row !! p
  = row !! p.
Proof.
  intros Hwf. induction traces as [|trace rest IH]; intros Hsub Hout row Hrow.
  - reflexivity.
  - cbn [fold_left].
    assert (Hin : In trace stream) by (apply Hsub; now left).
    destruct (copied_in_range fl stream Hwf trace Hin) as (H1 & H2 & H3).
    pose proof (offset_in_range fl stream Hwf trace Hin) as Hoff.
    pose proof (copied_samples_length fl stream trace Hwf Hin) as Hcs.
    rewrite IH.
    + apply overwrite_lookup_outside; rewrite Hcs; [lia|].
      specialize (Hout trace (or_introl eq_refl)). lia.
    + intros t Ht. apply Hsub. now right.
    + intros t Ht. apply Hout. now right.
    + rewrite overwrite_length; [exact Hrow|]. rewrite Hcs. lia.
Qed.

(** The docstring's "remaining parts are filled with zeros": a column that
    no copy of a matching trace covers holds zero in the filled row, and so
    minus the row mean in the output. *)
Theorem gaps_are_zero (stream : Stream) (component_order : list ascii)
    (log : list Warning) (c_idx : nat) (c : ascii) (p : nat) :
  well_formed stream ->
  component_order !! c_idx = Some c ->
  (p < Z.to_nat (sample_count fl stream))%nat ->
  (forall trace, In trace (select fnmatch stream c) ->
     (Z.of_nat p < offset_of fl stream trace \/
      offset_of fl stream trace + copied_of fl stream trace <= Z.of_nat p)%Z) ->
  filled_row fnmatch fl stream c !! p = Some 0 /\
  exists start array completeness log' row,
    stream_to_array fnmatch fl stream component_order log
    = (Ok (start, array, completeness), log') /\
    array !! c_idx = Some row /\
    row !! p = Some (0 - Np.mean (filled_row fnmatch fl stream c)).
Proof.
  intros Hwf Hc Hp Hout.
  assert (Hco : component_order <> []) by (intros ->; discriminate Hc).
  assert (Hrow : filled_row fnmatch fl stream c !! p = Some 0).
  { unfold filled_row. rewrite writes_elsewhere.
    - now apply lookup_replicate_2.
    - exact Hwf.
    - apply processing_order_In.
    - intros trace Ht. apply Hout.
      exact (Permutation_in _ (processing_order_Permutation fnmatch stream c) Ht).
    - apply length_replicate. }
  split; [exact Hrow|].
  do 5 eexists.
  split; [apply (stream_to_array_run fnmatch fl stream component_order log Hwf Hco)|].
  split.
  { apply sub_row_mean_lookup. rewrite list_lookup_fmap, Hc. reflexivity. }
  rewrite list_lookup_fmap, Hrow. reflexivity.
Qed.

(** The last writer wins: a column holds the sample of the last trace, in
    the order of processing, whose copy covers it.  With a single matching
    trace this says where its samples are. *)
Theorem last_writer_wins (stream : Stream) (c : ascii)
    (before after : list Trace) (trace : Trace) (k : nat) :
  well_formed stream ->
  processing_order fnmatch stream c = before ++ trace :: after ->
  (k < Z.to_nat (copied_of fl stream trace))%nat ->
  (forall later, In later after ->
     (offset_of fl stream trace + Z.of_nat k < offset_of fl stream later \/
      offset_of fl stream later + copied_of fl stream later
      <= offset_of fl stream trace + Z.of_nat k)%Z) ->
  filled_row fnmatch fl stream c !! (Z.to_nat (offset_of fl stream trace) + k)%nat
  = data trace !! k.
Proof.
  intros Hwf Horder Hk Hafter.
  assert (Hsub : forall t, In t (before ++ trace :: after) -> In t stream).
  { intros t Ht. rewrite <- Horder in Ht. exact (processing_order_In fnmatch stream c t Ht). }
  assert (Hin : In trace stream) by (apply Hsub, in_or_app; right; now left).
  destruct (copied_in_range fl stream Hwf trace Hin) as (H1 & H2 & H3).
  pose proof (offset_in_range fl stream Hwf trace Hin) as Hoff.
  pose proof (copied_samples_length fl stream trace Hwf Hin) as Hcs.
  unfold filled_row. rewrite Horder, fold_left_app. cbn [fold_left].
  set (row := fold_left _ before _).
  assert (Hrow : List.length row = Z.to_nat (sample_count fl stream)).
  { apply writes_keep_length; [exact Hwf| |apply length_replicate].
    intros t Ht. apply Hsub, in_or_app. now left. }
  rewrite writes_elsewhere.
  - rewrite overwrite_lookup_inside; [|lia|rewrite Hcs; exact Hk].
    unfold copied_samples. now rewrite lookup_take_lt.
  - exact Hwf.
  - intros t Ht. apply Hsub, in_or_app. right. now right.
  - intros later Hl. specialize (Hafter later Hl). lia.
  - rewrite overwrite_length; [exact Hrow|]. rewrite Hcs. lia.
Qed.

(** Among the matching traces of one length the order of the stream is
    kept, so of two duplicates of equal length the later one in the stream is
    written last. *)
Theorem equal_lengths_keep_stream_order (stream : Stream) (c : ascii) (n : Z) :
  List.filter (fun trace => (npts trace =? n)%Z) (processing_order fnmatch stream c)
  = List.filter (fun trace => (npts trace =? n)%Z) (select fnmatch stream c).
Proof.
  unfold processing_order.
  destruct (1 <? _)%Z; [apply sorted_stable|reflexivity].
Qed.

Lemma sum_at_least_member (f : Trace -> Z) (traces : list Trace) (trace : Trace) :
  (forall t, In t traces -> (0 <= f t)%Z) ->
  In trace traces ->
  (f trace <= fold_right Z.add 0%Z (map f traces))%Z.
Proof.
  induction traces as [|t rest IH]; intros Hpos Hin; [destruct Hin|].
  cbn [map fold_right].
  assert (Hrest : (0 <= fold_right Z.add 0%Z (map f rest))%Z).
  { clear IH Hin. induction rest as [|u r IHr]; simpl; [lia|].
    pose proof (Hpos u (or_intror (or_introl eq_refl))).
    assert (0 <= fold_right Z.add 0 (map f r))%Z
      by (apply IHr; intros v [<-|Hv]; apply Hpos; [now left|now right; right]).
    lia. }
  destruct Hin as [<-|Hin]; [lia|].
  pose proof (Hpos t (or_introl eq_refl)).
  assert (f trace <= fold_right Z.add 0 (map f rest))%Z
    by (apply IH; [intros v Hv; apply Hpos; now right|exact Hin]).
  lia.
Qed.

Lemma sum_of_ones (f : ascii -> Q) (components : list ascii) :
  (forall c, In c components -> f c == 1) ->
  fold_right Qplus 0 (map f components) == inject_Z (Z.of_nat (List.length components)).
Proof.
  induction components as [|c rest IH]; intros H.
  - reflexivity.
  - cbn [map fold_right List.length].
    rewrite (H c (or_introl eq_refl)), IH by (intros c' Hc'; apply H; now right).
    rewrite Nat2Z.inj_succ. unfold Z.succ. rewrite inject_Z_plus.
    change (inject_Z 1) with 1. lra.
Qed.

(** Completeness is 1 when every requested component has a matching trace
    that starts at the earliest start and has at least as many samples as
    the output has columns. *)
Theorem full_coverage_is_complete (stream : Stream) (component_order : list ascii)
    (log : list Warning) :
  well_formed stream -> component_order <> [] ->
  (forall c, In c component_order ->
     exists trace, In trace (select fnmatch stream c) /\
       starttime trace == earliest_start stream /\
       (sample_count fl stream <= npts trace)%Z) ->
  exists start array completeness log',
    stream_to_array fnmatch fl stream component_order log
    = (Ok (start, array, completeness), log') /\
    completeness == 1.
Proof.
  intros Hwf Hco Hfull.
  do 4 eexists.
  split; [apply (stream_to_array_run fnmatch fl stream component_order log Hwf Hco)|].
  rewrite completeness_sum, Qplus_0_l.
  pose proof (sample_count_pos fl stream Hwf) as Hpos.
  rewrite sum_of_ones.
  - field. change 0 with (inject_Z 0). rewrite inject_Z_injective.
    destruct component_order; [congruence|simpl; lia].
  - intros c Hc. destruct (Hfull c Hc) as (trace & Hsel & Hstart & Hlen).
    assert (Hin : In trace stream) by exact (select_In fnmatch stream c trace Hsel).
    assert (Hoff : offset_of fl stream trace = 0%Z).
    { unfold offset_of, start_sample_of.
      assert (E : fl_mul fl (fl_time_sub fl (starttime trace) (earliest_start stream))
                    (stream_rate stream) == 0)
        by (apply mul_zero_l, time_sub_same, Hstart).
      rewrite int_floor by (rewrite E; lra).
      rewrite (Qfloor_comp _ _ E). reflexivity. }
    assert (Hcopied : copied_of fl stream trace = sample_count fl stream).
    { unfold copied_of, copy_length. rewrite Hoff. fold (npts trace). lia. }
    assert (Htotal : (sample_count fl stream <= copied_total fnmatch fl stream c)%Z).
    { unfold copied_total. rewrite <- Hcopied at 1.
      apply sum_at_least_member.
      - intros t Ht. apply (copied_in_range fl stream Hwf t).
        exact (processing_order_In fnmatch stream c t Ht).
      - apply (Permutation_in _
                 (Permutation_sym (processing_order_Permutation fnmatch stream c))).
        exact Hsel. }
    unfold component_completeness. apply Q.min_l.
    apply Qle_shift_div_l.
    + change 0 with (inject_Z 0). rewrite <- Zlt_Qlt. lia.
    + rewrite Qmult_1_l. rewrite <- Zle_Qle. exact Htotal.
Qed.

Lemma sum_of_zeros (n : nat) : Np.sum (replicate n 0) == 0.
Proof.
  induction n as [|n IH]; [reflexivity|].
  change (Np.sum (replicate (S n) 0)) with (0 + Np.sum (replicate n 0)).
  rewrite IH. reflexivity.
Qed.

(** A requested component without any matching trace gives a row of
    zeros of the full width. *)
Theorem missing_component_row_is_zero (stream : Stream) (component_order : list ascii)
    (log : list Warning) (c_idx : nat) (c : ascii) :
  well_formed stream ->
  component_order !! c_idx = Some c ->
  select fnmatch stream c = [] ->
  exists start array completeness log' row,
    stream_to_array fnmatch fl stream component_order log
    = (Ok (start, array, completeness), log') /\
    array !! c_idx = Some row /\
    List.length row = Z.to_nat (sample_count fl stream) /\
    Forall (fun x => x == 0) row.
Proof.
  intros Hwf Hc Hsel.
  assert (Hco : component_order <> []) by (intros ->; discriminate Hc).
  assert (Hrow : filled_row fnmatch fl stream c
                 = replicate (Z.to_nat (sample_count fl stream)) 0).
  { unfold filled_row, processing_order. rewrite Hsel. reflexivity. }
  do 5 eexists.
  split; [apply (stream_to_array_run fnmatch fl stream component_order log Hwf Hco)|].
  split.
  { apply sub_row_mean_lookup. rewrite list_lookup_fmap, Hc. reflexivity. }
  split.
  { rewrite length_map. now apply filled_row_length. }
  rewrite Hrow. rewrite List.Forall_forall. intros x Hx.
  apply in_map_iff in Hx as (y & <- & Hy).
  apply list_elem_of_In, elem_of_replicate in Hy as [-> _].
  unfold Np.mean. rewrite sum_of_zeros. unfold Qdiv. rewrite Qmult_0_l. reflexivity.
Qed.

End AssemblerRows.

(** ** More on the best-effort rotator *)

Section RotatorMore.

Variable Inventory : Type.
Variable rotate : Stream -> Inventory -> Stream * option exn.

(** The handlers of lines 79-86 change nothing: the rotator behaves as
    the single handler [except Exception] of line 87 does. *)
Theorem specific_handlers_are_redundant (stream : Stream) (inventory : Inventory) :
  rotate_stream_to_ZNE Inventory rotate stream inventory
  = try_except_pass (rotate stream inventory) [Exception].
Proof.
  unfold rotate_stream_to_ZNE, try_except_pass.
  destruct (rotate stream inventory) as [s [e|]]; [|reflexivity].
  now destruct e.
Qed.

(** When the rotation is all or nothing, raising only exceptions that
    derive from [Exception] and only before it has changed the stream, the
    rotator never lets an exception through and leaves the stream unmodified
    after a failure: the contract the specification words holds. *)
Theorem atomic_rotation_meets_contract (rotated : Stream -> Inventory -> Stream) :
  (forall stream inventory,
     match rotate stream inventory with
     | (stream', Some e) => derives_from_Exception e = true /\ stream' = stream
     | (stream', None) => stream' = rotated stream inventory
     end) ->
  best_effort_contract Inventory rotate rotated.
Proof.
  intros Hatomic stream inventory. specialize (Hatomic stream inventory).
  unfold rotate_stream_to_ZNE, try_except_pass.
  destruct (rotate stream inventory) as [s [e|]]; cbn [fst snd].
  - destruct Hatomic as [He ->]. rewrite handlers_catch, He. cbn [fst snd].
    split; [reflexivity|]. intros _. now left.
  - split; [reflexivity|]. intros H. now destruct H.
Qed.

End RotatorMore.

Section MoreExamples.

Import Examples.

Local Open Scope Q_scope.

Lemma atomic_rotation_meets_contract_witness :
  best_effort_contract Inventory rotate_atomic (fun stream _ => rotate_all stream).
Proof.
  apply atomic_rotation_meets_contract.
  intros stream inventory. unfold rotate_atomic.
  destruct (forallb _ stream); [reflexivity|split; reflexivity].
Defined.

Lemma empty_order_raises_witness :
  stream_to_array glob exact_arith stream_ZN [] [] = (Raise ZeroDivisionError, []).
Proof. apply (empty_order_raises glob exact_arith). exact stream_ZN_well_formed. Defined.

Lemma no_duplicates_no_warning_witness :
  @nil Warning = [].
Proof.
  refine (no_duplicates_no_warning glob exact_arith stream_ZN ["Z"; "N"]%char []
            (0, [[-6 # 4; -2 # 4; 2 # 4; 6 # 4]; [-12 # 4; 8 # 4; 16 # 4; -12 # 4]], 6 # 8)
            [] _ _).
  - intros c [<-|[<-|[]]]; simpl; lia.
  - reflexivity.
Defined.

Lemma gaps_are_zero_witness :
  filled_row glob exact_arith stream_ZN "N" !! 0%nat = Some 0.
Proof.
  refine (proj1 (gaps_are_zero glob exact_arith stream_ZN ["Z"; "N"]%char [] 1 "N" 0
                   stream_ZN_well_formed _ _ _)).
  - reflexivity.
  - vm_compute. lia.
  - intros trace [<-|[]]. left. reflexivity.
Defined.

Lemma last_writer_wins_witness :
  filled_row glob exact_arith stream_dup "Z" !! (Z.to_nat (offset_of exact_arith stream_dup trace_long) + 1)%nat
  = data trace_long !! 1%nat.
Proof.
  refine (last_writer_wins glob exact_arith stream_dup "Z" [trace_short] [] trace_long 1
            stream_dup_well_formed _ _ _).
  - reflexivity.
  - vm_compute. lia.
  - intros later [].
Defined.

Lemma stream_Z_well_formed : well_formed [trace_Z].
Proof.
  split; [discriminate|].
  split; [repeat constructor; simpl; lra|simpl; lra].
Defined.

Lemma full_coverage_is_complete_witness :
  exists start array completeness log',
    stream_to_array glob exact_arith [trace_Z] ["Z"]%char []
    = (Ok (start, array, completeness), log') /\
    completeness == 1.
Proof.
  apply (full_coverage_is_complete glob exact_arith).
  - exact stream_Z_well_formed.
  - discriminate.
  - intros c [<-|[]]. exists trace_Z.
    split; [left; reflexivity|]. split; [reflexivity|discriminate].
Defined.

Lemma missing_component_row_is_zero_witness :
  exists start array completeness log' row,
    stream_to_array glob exact_arith stream_ZN ["E"]%char []
    = (Ok (start, array, completeness), log') /\
    array !! 0%nat = Some row /\
    List.length row = Z.to_nat (sample_count exact_arith stream_ZN) /\
    Forall (fun x => x == 0) row.
Proof.
  apply (missing_component_row_is_zero glob exact_arith stream_ZN ["E"]%char [] 0 "E"
           stream_ZN_well_formed); reflexivity.
Defined.

(** Overlapping duplicates are counted twice, as the warning of line 49
    says: two copies of the same two samples in a row of four columns give
    completeness 1 while half of the row is gap. *)
Example overlap_overcounts :
  let stream := [mkTrace "XX.STA..BHZ" "BHZ" 0 3 1 [1; 1];
                 mkTrace "XX.STA..BHZ" "BHZ" 0 3 1 [1; 1]] in
  filled_row glob exact_arith stream "Z" = [1; 1; 0; 0] /\
  component_completeness glob exact_arith stream "Z" == 1.
Proof. split; reflexivity. Qed.

End MoreExamples.
